(** * caddy-dns-godaddy: the GoDaddy DNS provider of Caddy

    A shallow embedding of [caddy_dns_godaddy.go].  The provider talks to
    the GoDaddy REST API through [http.Client.Do]; here that call is the
    only primitive that touches the world, and the world records every
    request handed to it, so that statements about what an operation sends
    are statements about the trace it leaves. *)

From Stdlib Require Import ZArith DecimalString.
From stdpp Require Import base strings list gmap.

Local Open Scope Z_scope.

(** ** Go's [strings] and [fmt] helpers used by the provider *)

Module strings.

(** [len(s) >= len(suffix) && s[len(s)-len(suffix):] == suffix] *)
Definition HasSuffix (s suffix : string) : bool :=
  (String.length suffix <=? String.length s)%nat
  && String.eqb
       (String.substring (String.length s - String.length suffix)
                  (String.length suffix) s)
       suffix.

(** [if HasSuffix(s, suffix) { return s[:len(s)-len(suffix)] }; return s] *)
Definition TrimSuffix (s suffix : string) : string :=
  if HasSuffix s suffix
  then String.substring 0 (String.length s - String.length suffix) s
  else s.

End strings.

Module fmt.

(** The verb [%d] applied to an [int]. *)
Definition d (n : Z) : string := NilZero.string_of_int (Z.to_int n).

End fmt.

(** ** Data model *)

(** Go's [error] values are only ever built by [fmt.Errorf] and inspected
    through their message; an error is its message. *)
Definition error := string.

(** [time.Duration] and [caddy.Duration]: a count of nanoseconds. *)
Definition Duration := Z.

Module time.
Definition Second : Duration := 1000000000.
End time.

(** [libdns.RR].  [libdns.Record] is an interface whose single method
    [RR()] yields this struct, and the provider reads records through
    [RR()] only: a record is modelled by the [RR] it yields. *)
Record RR_t := mkRR {
  Name : string;
  TTL : Duration;
  Type_ : string;
  Data : string
}.

Definition Record_t := RR_t.
Definition RR (r : Record_t) : RR_t := r.

Record Provider := mkProvider {
  APIKey : string;
  APISecret : string;
  HTTPTimeout : Duration
}.

(** A Go slice is a list, the [nil] slice the empty list; a Go [error] is
    an [option error], [nil] being [None].  [result] is the outcome of a
    call returning [(T, error)] where exactly one of the two is
    meaningful. *)
Inductive result (A : Type) : Type :=
| Ok (a : A)
| Err (e : error).
Arguments Ok {A} a.
Arguments Err {A} e.

(** [http.Request]: the fields the provider sets.  [Context] is Go's
    [context.Context]; it travels with the request. *)
Record Request (Context : Type) := mkRequest {
  req_ctx : Context;
  Method : string;
  URL : string;
  Header : gmap string (list string);
  req_Body : option string
}.
Arguments mkRequest {Context}.
Arguments req_ctx {Context}.
Arguments Method {Context}.
Arguments URL {Context}.
Arguments Header {Context}.
Arguments req_Body {Context}.

(** [http.Response]: the status code, and the bytes [io.ReadAll] yields
    for the body. *)
Record Response := mkResponse {
  StatusCode : Z;
  Body : string
}.

(** What [http.Client.Do] was called with: the client's [Timeout] and the
    request. *)
Record Sent (Context : Type) := mkSent {
  sent_Timeout : Duration;
  sent_req : Request Context
}.
Arguments mkSent {Context}.
Arguments sent_Timeout {Context}.
Arguments sent_req {Context}.

(** ** What the provider is linked against

    The upstream service with the network in front of it, and the two
    library calls whose outcome the provider only passes on. *)
Class Env := {
  (** [context.Context] *)
  Context : Type;
  Upstream : Type;
  (** One call of [http.Client.Do]: the outcome and the upstream after it. *)
  roundTrip : Upstream -> Sent Context -> Upstream * result Response;
  (** The failure of [url.Parse] inside [http.NewRequestWithContext], if
      any. *)
  url_Parse_error : string -> option error;
  (** [encoding/json] on slices of records. *)
  json_Marshal : list RR_t -> result string;
  json_Decode : string -> result (list Record_t)
}.

(** ** A scripted upstream

    A small closed environment on which the provider can be run: the
    upstream answers from a script of outcomes, one per call, and with
    [200 []] once the script is used up; every URL parses; records are
    written and read in a toy notation. *)

Module Scripted.

Definition Context := unit.

Definition Upstream := list (result Response).

Definition roundTrip (u : Upstream) (s : Sent Context)
  : Upstream * result Response :=
  match u with
  | [] => ([], Ok (mkResponse 200 "[]"))
  | r :: u' => (u', r)
  end.

Definition url_Parse_error (url : string) : option error := None.

Definition render (r : RR_t) : string :=
  "{" +:+ Type_ r +:+ " " +:+ Name r +:+ " " +:+ Data r +:+ "}".

Definition json_Marshal (l : list RR_t) : result string :=
  Ok ("[" +:+ String.concat "," (map render l) +:+ "]").

Definition old_challenge : Record_t :=
  mkRR "_acme-challenge" (600 * time.Second) "TXT" "old".

Definition json_Decode (body : string) : result (list Record_t) :=
  if String.eqb body "[]" then Ok []
  else if String.eqb body "[{TXT _acme-challenge old}]" then Ok [old_challenge]
  else Err "invalid character".

Definition env : Env :=
  Build_Env Context Upstream roundTrip url_Parse_error json_Marshal
    json_Decode.

End Scripted.

(** ** The provider *)

Section Monad.

Context {env : Env}.

(** The world: the upstream, and the trace of the calls of
    [http.Client.Do] so far. *)
Record World := mkWorld {
  upstream : Upstream;
  sent : list (Sent Context)
}.

(** *** The state monad of the provider's methods *)

Definition M (A : Type) : Type := World -> A * World.

Definition ret {A} (a : A) : M A := fun w => (a, w).

Definition bind {A B} (m : M A) (k : A -> M B) : M B :=
  fun w => let (a, w') := m w in k a w'.

End Monad.

Notation "x <- m ;; k" := (bind m (fun x => k))
  (at level 100, m at next level, right associativity).

Section Godaddy.

Context {env : Env}.

(** *** [net/http] *)

(** [Header.Set]: the values of [key] are replaced by the one [value].  The
    keys the provider sets are in canonical form already. *)
Definition Header_Set (key value : string) (h : gmap string (list string))
  : gmap string (list string) :=
  <[key := [value]]> h.

Definition http_NewRequestWithContext
    (ctx : Context) (method url : string) (body : option string)
  : result (Request Context) :=
  match url_Parse_error url with
  | Some e => Err e
  | None => Ok (mkRequest ctx method url ∅ body)
  end.

Definition client_Do (timeout : Duration) (req : Request Context)
  : M (result Response) :=
  fun w =>
    let s := mkSent timeout req in
    let (u', r) := roundTrip (upstream w) s in
    (r, mkWorld u' (sent w ++ [s])).

Definition http_StatusOK : Z := 200.
Definition http_StatusNoContent : Z := 204.

(** *** The provider's methods *)

Definition Provision (p : Provider) : M (Provider * option error) :=
  if String.eqb (APIKey p) "" then
    ret (p, Some "GoDaddy API key cannot be empty")
  else if String.eqb (APISecret p) "" then
    ret (p, Some "GoDaddy API secret cannot be empty")
  else if HTTPTimeout p =? 0 then
    ret (mkProvider (APIKey p) (APISecret p) (30 * time.Second), None)
  else
    ret (p, None).

Definition request (p : Provider) (req : Request Context) : M (result Response) :=
  let h := Header_Set "Authorization"
             ("sso-key " +:+ APIKey p +:+ ":" +:+ APISecret p)
             (Header req) in
  let h := Header_Set "Content-Type" "application/json" h in
  client_Do (HTTPTimeout p)
    (mkRequest (req_ctx req) (Method req) (URL req) h (req_Body req)).

Definition records_url (domain : string) : string :=
  "https://api.godaddy.com/v1/domains/" +:+ domain +:+ "/records".

Definition record_url (domain type name : string) : string :=
  "https://api.godaddy.com/v1/domains/" +:+ domain +:+ "/records/"
    +:+ type +:+ "/" +:+ name.

(** The record name sent upstream by [createRecord] and [deleteRecord]. *)
Definition recordName (domain : string) (record : Record_t) : string :=
  let recordName := strings.TrimSuffix (Name (RR record)) ("." +:+ domain) in
  if String.eqb recordName domain then "@" else recordName.

Definition createRecord (p : Provider) (ctx : Context) (zone : string)
    (record : Record_t) : M (option error) :=
  let domain := strings.TrimSuffix zone "." in
  let recordName := recordName domain record in
  let rr := RR record in
  let godaddyRecord := mkRR recordName (TTL rr) (Type_ rr) (Data rr) in
  let recordsArray := [godaddyRecord] in
  match json_Marshal recordsArray with
  | Err e => ret (Some e)
  | Ok jsonData =>
    let url := records_url domain in
    match http_NewRequestWithContext ctx "PATCH" url (Some jsonData) with
    | Err e => ret (Some e)
    | Ok req =>
      r <- request p req ;;
      match r with
      | Err e => ret (Some e)
      | Ok resp =>
        if negb (StatusCode resp =? http_StatusOK) then
          ret (Some ("failed to create DNS record: "
                       +:+ fmt.d (StatusCode resp) +:+ " " +:+ Body resp))
        else ret None
      end
    end
  end.

Definition deleteRecord (p : Provider) (ctx : Context) (zone : string)
    (record : Record_t) : M (option error) :=
  let domain := strings.TrimSuffix zone "." in
  let rr := RR record in
  let recordName := recordName domain record in
  let url := record_url domain (Type_ rr) recordName in
  match http_NewRequestWithContext ctx "DELETE" url None with
  | Err e => ret (Some e)
  | Ok req =>
    r <- request p req ;;
    match r with
    | Err e => ret (Some e)
    | Ok resp =>
      if negb (StatusCode resp =? http_StatusOK)
         && negb (StatusCode resp =? http_StatusNoContent) then
        ret (Some ("failed to delete DNS record: "
                     +:+ fmt.d (StatusCode resp) +:+ " " +:+ Body resp))
      else ret None
    end
  end.

(** The loop of [AppendRecords], from the records still to create and the
    slice built so far. *)
Fixpoint AppendRecords_loop (p : Provider) (ctx : Context) (zone : string)
    (records createdRecords : list Record_t)
  : M (list Record_t * option error) :=
  match records with
  | [] => ret (createdRecords, None)
  | record :: records' =>
    err <- createRecord p ctx zone record ;;
    match err with
    | Some e =>
      ret (createdRecords, Some ("failed to create DNS record: " +:+ e))
    | None =>
      AppendRecords_loop p ctx zone records' (createdRecords ++ [record])
    end
  end.

Definition AppendRecords (p : Provider) (ctx : Context) (zone : string)
    (records : list Record_t) : M (list Record_t * option error) :=
  AppendRecords_loop p ctx zone records [].

Fixpoint DeleteRecords_loop (p : Provider) (ctx : Context) (zone : string)
    (records deletedRecords : list Record_t)
  : M (list Record_t * option error) :=
  match records with
  | [] => ret (deletedRecords, None)
  | record :: records' =>
    err <- deleteRecord p ctx zone record ;;
    match err with
    | Some e =>
      ret (deletedRecords, Some ("failed to delete DNS record: " +:+ e))
    | None =>
      DeleteRecords_loop p ctx zone records' (deletedRecords ++ [record])
    end
  end.

Definition DeleteRecords (p : Provider) (ctx : Context) (zone : string)
    (records : list Record_t) : M (list Record_t * option error) :=
  DeleteRecords_loop p ctx zone records [].

Definition GetRecords (p : Provider) (ctx : Context) (zone : string)
  : M (list Record_t * option error) :=
  let domain := strings.TrimSuffix zone "." in
  let url := records_url domain in
  match http_NewRequestWithContext ctx "GET" url None with
  | Err e => ret ([], Some e)
  | Ok req =>
    r <- request p req ;;
    match r with
    | Err e => ret ([], Some e)
    | Ok resp =>
      if negb (StatusCode resp =? http_StatusOK) then
        ret ([], Some ("GoDaddy API request failed: "
                         +:+ fmt.d (StatusCode resp) +:+ " " +:+ Body resp))
      else
        match json_Decode (Body resp) with
        | Err e => ret ([], Some e)
        | Ok godaddyRecords =>
          let records :=
            map (fun gr => let rr := RR gr in
                           mkRR (Name rr) (TTL rr) (Type_ rr) (Data rr))
                godaddyRecords in
          ret (records, None)
        end
    end
  end.

(** The test of the inner loop of [SetRecords]. *)
Definition same_type_name (existing newRecord : Record_t) : bool :=
  let existingRR := RR existing in
  let newRecordRR := RR newRecord in
  String.eqb (Type_ existingRR) (Type_ newRecordRR)
  && String.eqb (Name existingRR) (Name newRecordRR).

(** The inner loop of [SetRecords]: the existing records still to scan
    for one new record.  [Some e] is the early [return nil, e]. *)
Fixpoint SetRecords_scan (p : Provider) (ctx : Context) (zone : string)
    (newRecord : Record_t) (existingRecords : list Record_t)
  : M (option error) :=
  match existingRecords with
  | [] => ret None
  | existing :: existingRecords' =>
    if same_type_name existing newRecord then
      err <- deleteRecord p ctx zone existing ;;
      match err with
      | Some e => ret (Some ("failed to delete existing record: " +:+ e))
      | None => SetRecords_scan p ctx zone newRecord existingRecords'
      end
    else SetRecords_scan p ctx zone newRecord existingRecords'
  end.

(** The outer loop of [SetRecords]. *)
Fixpoint SetRecords_delete (p : Provider) (ctx : Context) (zone : string)
    (records existingRecords : list Record_t) : M (option error) :=
  match records with
  | [] => ret None
  | newRecord :: records' =>
    err <- SetRecords_scan p ctx zone newRecord existingRecords ;;
    match err with
    | Some e => ret (Some e)
    | None => SetRecords_delete p ctx zone records' existingRecords
    end
  end.

Definition SetRecords (p : Provider) (ctx : Context) (zone : string)
    (records : list Record_t) : M (list Record_t * option error) :=
  got <- GetRecords p ctx zone ;;
  match got with
  | (_, Some err) => ret ([], Some err)
  | (existingRecords, None) =>
    err <- SetRecords_delete p ctx zone records existingRecords ;;
    match err with
    | Some e => ret ([], Some e)
    | None => AppendRecords p ctx zone records
    end
  end.

(** ** Notions the properties are stated with *)

(** The request [request] hands to [http.Client.Do] for [req]. *)
Definition outgoing (p : Provider) (req : Request Context) : Sent Context :=
  mkSent (HTTPTimeout p)
    (mkRequest (req_ctx req) (Method req) (URL req)
       (Header_Set "Content-Type" "application/json"
          (Header_Set "Authorization"
             ("sso-key " +:+ APIKey p +:+ ":" +:+ APISecret p)
             (Header req)))
       (req_Body req)).

(** The request carries the credentials, the content type and the
    provider's timeout. *)
Definition authenticated (p : Provider) (s : Sent Context) : Prop :=
  Header (sent_req s) !! "Authorization"
    = Some ["sso-key " +:+ APIKey p +:+ ":" +:+ APISecret p]
  /\ Header (sent_req s) !! "Content-Type" = Some ["application/json"]
  /\ sent_Timeout s = HTTPTimeout p.

(** [s] is a request that the helper [request] hands to the client. *)
Definition from_request (p : Provider) (s : Sent Context) : Prop :=
  exists req w, sent (snd (request p req w)) = sent w ++ [s].

(** Whatever the world, [m] only adds to the trace, and only requests
    satisfying [P]. *)
Definition sends_only (P : Sent Context -> Prop) {A} (m : M A) : Prop :=
  forall w, exists new, sent (snd (m w)) = sent w ++ new /\ Forall P new.

(** [all_succeed f records w w']: calling [f] on each of [records] in
    order, from the world [w], succeeds every time and leaves [w']. *)
Inductive all_succeed (f : Record_t -> M (option error))
  : list Record_t -> World -> World -> Prop :=
| all_succeed_nil (w : World) : all_succeed f [] w w
| all_succeed_cons (r : Record_t) (records : list Record_t)
    (w w1 w' : World) :
    f r w = (None, w1) ->
    all_succeed f records w1 w' ->
    all_succeed f (r :: records) w w'.

(** The contract of a batch [run] built on the single-record operation
    [f]: either every call succeeds, and the result is the whole input
    with no error, or some call is the first to fail, with [e], and the
    result is the records before it with the error [prefix e]; in both
    cases the world is the one left by the last call made. *)
Definition stops_at_first_failure (f : Record_t -> M (option error))
    (prefix : string) (run : list Record_t -> M (list Record_t * option error))
  : Prop :=
  forall (records : list Record_t) (w : World),
    (exists w', all_succeed f records w w'
                /\ run records w = ((records, None), w'))
    \/ (exists pre r post e w1 w',
          records = pre ++ r :: post
          /\ all_succeed f pre w w1
          /\ f r w1 = (Some e, w')
          /\ run records w = ((pre, Some (prefix +:+ e)), w')).

(** The algorithm as the specification words it.  The delete targets: for
    every desired record in input order, the current records whose type and
    name equal its own, in the order they were fetched, nothing merged. *)
Definition delete_targets (records existingRecords : list Record_t)
  : list Record_t :=
  List.flat_map
    (fun newRecord =>
       List.filter (fun existing => same_type_name existing newRecord)
                   existingRecords)
    records.

(** One delete call per target, in order, up to the first that fails. *)
Fixpoint delete_each (p : Provider) (ctx : Context) (zone : string)
    (targets : list Record_t) : M (option error) :=
  match targets with
  | [] => ret None
  | target :: targets' =>
    err <- deleteRecord p ctx zone target ;;
    match err with
    | Some e => ret (Some ("failed to delete existing record: " +:+ e))
    | None => delete_each p ctx zone targets'
    end
  end.

(** Fetch, and return at once with the error of a failed fetch; delete the
    targets; append the desired records. *)
Definition reconcile (p : Provider) (ctx : Context) (zone : string)
    (records : list Record_t) : M (list Record_t * option error) :=
  got <- GetRecords p ctx zone ;;
  match got with
  | (_, Some err) => ret ([], Some err)
  | (existingRecords, None) =>
    err <- delete_each p ctx zone (delete_targets records existingRecords) ;;
    match err with
    | Some e => ret ([], Some e)
    | None => AppendRecords p ctx zone records
    end
  end.

(** The requests [m] hands to [http.Client.Do] when run from [w]: what it
    adds to the trace. *)
Definition requests_of {A} (m : M A) (w : World) : list (Sent Context) :=
  drop (length (sent w)) (sent (snd (m w))).

(** The three requests of the provider, as they leave [request]: the
    listing of a domain, the creation of [r] and the deletion of [r]. *)
Definition list_request (p : Provider) (ctx : Context) (domain : string)
  : Sent Context :=
  outgoing p (mkRequest ctx "GET" (records_url domain) ∅ None).

Definition delete_request (p : Provider) (ctx : Context) (domain : string)
    (r : Record_t) : Sent Context :=
  outgoing p
    (mkRequest ctx "DELETE"
       (record_url domain (Type_ (RR r)) (recordName domain r)) ∅ None).

Definition is_create_request (p : Provider) (ctx : Context) (domain : string)
    (r : Record_t) (s : Sent Context) : Prop :=
  exists jsonData,
    json_Marshal
      [mkRR (recordName domain r) (TTL (RR r)) (Type_ (RR r)) (Data (RR r))]
    = Ok jsonData
    /\ s = outgoing p
             (mkRequest ctx "PATCH" (records_url domain) ∅ (Some jsonData)).

Definition is_delete_request (p : Provider) (ctx : Context) (domain : string)
    (r : Record_t) (s : Sent Context) : Prop :=
  s = delete_request p ctx domain r.

End Godaddy.

(** ** The provider on the scripted upstream *)

Module Run.

Definition World := @World Scripted.env.

Definition world (script : Scripted.Upstream) : World :=
  @mkWorld Scripted.env script [].

Definition provider : Provider := mkProvider "key" "secret" 0.

Definition Provision := @Provision Scripted.env.
Definition createRecord := @createRecord Scripted.env.
Definition deleteRecord := @deleteRecord Scripted.env.
Definition GetRecords := @GetRecords Scripted.env.
Definition AppendRecords := @AppendRecords Scripted.env.
Definition SetRecords := @SetRecords Scripted.env.

Definition new_challenge : Record_t :=
  mkRR "_acme-challenge" (600 * time.Second) "TXT" "new".

Definition other_challenge : Record_t :=
  mkRR "_acme-challenge" (600 * time.Second) "TXT" "other".

Definition www : Record_t :=
  mkRR "www.example.com" (3600 * time.Second) "A" "192.0.2.1".

Definition ok : result Response := Ok (mkResponse 200 "").
Definition no_content : result Response := Ok (mkResponse 204 "").
Definition created : result Response := Ok (mkResponse 201 "created").
Definition server_error : result Response := Ok (mkResponse 500 "boom").
Definition listing : result Response :=
  Ok (mkResponse 200 "[{TXT _acme-challenge old}]").

End Run.

(** ** The Caddyfile of the provider

    [UnmarshalCaddyfile] reads its options from a [caddyfile.Dispenser],
    a cursor over the tokens of the configuration.  The dispenser is what
    the provider is given: its methods are taken as they are, each a
    function of the dispenser's state, and so is [time.ParseDuration]. *)

Module caddyfile.

Class Env := {
  Dispenser : Type;
  (** The methods that move the cursor: the answer and the dispenser
      after the call. *)
  Next : Dispenser -> bool * Dispenser;
  NextArg : Dispenser -> bool * Dispenser;
  NextBlock : Z -> Dispenser -> bool * Dispenser;
  (** The methods that only read it. *)
  Nesting : Dispenser -> Z;
  Val : Dispenser -> string;
  ArgErr : Dispenser -> error;
  (** [Errf], applied to the formatted message. *)
  Errf : Dispenser -> string -> error;
  time_ParseDuration : string -> result Duration
}.

End caddyfile.

Section Caddyfile.

Import caddyfile.

Context {cf : caddyfile.Env}.

(** The [switch] of [UnmarshalCaddyfile]: one option of the block.  The
    error, when there is one, is the function's early [return]. *)
Definition UnmarshalCaddyfile_option (d : Dispenser) (p : Provider)
  : Dispenser * Provider * option error :=
  let val := Val d in
  if String.eqb val "api_key" then
    let (arg, d) := NextArg d in
    if negb arg then (d, p, Some (ArgErr d))
    else (d, mkProvider (Val d) (APISecret p) (HTTPTimeout p), None)
  else if String.eqb val "api_secret" then
    let (arg, d) := NextArg d in
    if negb arg then (d, p, Some (ArgErr d))
    else (d, mkProvider (APIKey p) (Val d) (HTTPTimeout p), None)
  else if String.eqb val "http_timeout" then
    let (arg, d) := NextArg d in
    if negb arg then (d, p, Some (ArgErr d))
    else
      match time_ParseDuration (Val d) with
      | Err err => (d, p, Some ("failed to parse http_timeout: " +:+ err))
      | Ok dur => (d, mkProvider (APIKey p) (APISecret p) dur, None)
      end
  else
    (d, p, Some (Errf d ("unknown configuration option: " +:+ Val d))).

(** The inner loop, [for nesting := d.Nesting(); d.NextBlock(nesting);].
    Whether the loops end is up to the dispenser: [fuel] bounds the number
    of iterations, and [None] is a run that needs more. *)
Fixpoint UnmarshalCaddyfile_block (fuel : nat) (nesting : Z) (d : Dispenser)
    (p : Provider) : option (Dispenser * Provider * option error) :=
  match fuel with
  | O => None
  | S fuel' =>
    let (more, d) := NextBlock nesting d in
    if more then
      match UnmarshalCaddyfile_option d p with
      | (d, p, Some err) => Some (d, p, Some err)
      | (d, p, None) => UnmarshalCaddyfile_block fuel' nesting d p
      end
    else Some (d, p, None)
  end.

(** [UnmarshalCaddyfile]: the dispenser and the provider it leaves, and
    the error returned. *)
Fixpoint UnmarshalCaddyfile (fuel : nat) (d : Dispenser) (p : Provider)
  : option (Dispenser * Provider * option error) :=
  match fuel with
  | O => None
  | S fuel' =>
    let (more, d) := Next d in
    if more then
      let (arg, d) := NextArg d in
      if arg then Some (d, p, Some (ArgErr d))
      else
        match UnmarshalCaddyfile_block fuel' (Nesting d) d p with
        | None => None
        | Some (d, p, Some err) => Some (d, p, Some err)
        | Some (d, p, None) => UnmarshalCaddyfile fuel' d p
        end
    else Some (d, p, None)
  end.

(** Where a field of the provider may come from: it is still what it was,
    or it is the argument of the option of its name. *)
Definition from_option (name : string) (old new : string) : Prop :=
  new = old
  \/ exists d,
       Val d = name /\ fst (NextArg d) = true
       /\ new = Val (snd (NextArg d)).

Definition from_http_timeout (old new : Duration) : Prop :=
  new = old
  \/ exists d,
       Val d = "http_timeout" /\ fst (NextArg d) = true
       /\ time_ParseDuration (Val (snd (NextArg d))) = Ok new.

(** The errors [UnmarshalCaddyfile] is written to return. *)
Definition unmarshal_error (e : error) : Prop :=
  (exists d, e = ArgErr d)
  \/ (exists d err,
        Val d = "http_timeout"
        /\ time_ParseDuration (Val (snd (NextArg d))) = Err err
        /\ e = "failed to parse http_timeout: " +:+ err)
  \/ (exists d,
        Val d <> "api_key" /\ Val d <> "api_secret"
        /\ Val d <> "http_timeout"
        /\ e = Errf d ("unknown configuration option: " +:+ Val d)).

(** What a run may have done to the provider, and the error it may
    return. *)
Definition unmarshalled (p : Provider)
    (r : Dispenser * Provider * option error) : Prop :=
  from_option "api_key" (APIKey p) (APIKey (snd (fst r)))
  /\ from_option "api_secret" (APISecret p) (APISecret (snd (fst r)))
  /\ from_http_timeout (HTTPTimeout p) (HTTPTimeout (snd (fst r)))
  /\ (forall e, snd r = Some e -> unmarshal_error e).

End Caddyfile.

(** A scripted dispenser: every call that moves the cursor takes its
    answer, and the token the cursor is then on, from a script; once the
    script is used up the answer is [false]. *)
Module ScriptedDispenser.

Definition Dispenser : Type := string * list (bool * string).

Definition step (d : Dispenser) : bool * Dispenser :=
  match snd d with
  | [] => (false, d)
  | (answer, token) :: script => (answer, (token, script))
  end.

Definition ParseDuration (s : string) : result Duration :=
  if String.eqb s "10s" then Ok (10 * time.Second)
  else if String.eqb s "0s" then Ok 0
  else Err ("time: invalid duration " +:+ s).

Definition env : caddyfile.Env :=
  caddyfile.Build_Env Dispenser step step (fun _ => step) (fun _ => 0) fst
    (fun d => "wrong argument count or unexpected line ending after "
                +:+ fst d)
    (fun _ message => message)
    ParseDuration.

Definition dispenser (script : list (bool * string)) : Dispenser :=
  ("", script).

End ScriptedDispenser.

(** More outcomes and runs of the two scripted environments. *)
Module Scenario.

Definition DeleteRecords := @DeleteRecords Scripted.env.

Definition timed_out : result Response := Err "context deadline exceeded".
Definition not_found : result Response :=
  Ok (mkResponse 404 "{code: NOT_FOUND}").

Definition relative : Record_t :=
  mkRR "_acme-challenge" (600 * time.Second) "TXT" "token".

(** [godaddy { api_key K; api_secret S; http_timeout 10s }], as the
    answers of the dispenser to the calls of [UnmarshalCaddyfile]. *)
Definition block : list (bool * string) :=
  [(true, "godaddy"); (false, "{");
   (true, "api_key"); (true, "K");
   (true, "api_secret"); (true, "S");
   (true, "http_timeout"); (true, "10s");
   (false, "}")].

(** A block whose first option is misspelt. *)
Definition misspelt : list (bool * string) :=
  [(true, "godaddy"); (false, "{"); (true, "api_kee"); (true, "K")].

Definition UnmarshalCaddyfile := @UnmarshalCaddyfile ScriptedDispenser.env.

Definition left_to_read (d : ScriptedDispenser.Dispenser) : nat :=
  length (snd d).

End Scenario.

(** * Properties *)

Section Properties.

Context {env : Env}.

(** ** Facts about the string helpers *)

Lemma append_cons (a : Ascii.ascii) (s t : string) :
  String a s +:+ t = String a (s +:+ t).
Proof. reflexivity. Qed.

Lemma length_append (s t : string) :
  String.length (s +:+ t) = (String.length s + String.length t)%nat.
Proof.
  induction s as [|a s IH]; [reflexivity|].
  rewrite append_cons. simpl. now rewrite IH.
Qed.

Lemma substring_all (s : string) :
  String.substring 0 (String.length s) s = s.
Proof. induction s as [|a s IH]; simpl; [reflexivity | now rewrite IH]. Qed.

Lemma substring_append_l (s t : string) :
  String.substring 0 (String.length s) (s +:+ t) = s.
Proof.
  induction s as [|a s IH]; [now destruct t|].
  rewrite append_cons. simpl. now rewrite IH.
Qed.

Lemma substring_append_r (s t : string) :
  String.substring (String.length s) (String.length t) (s +:+ t) = t.
Proof.
  induction s as [|a s IH]; [apply substring_all|].
  rewrite append_cons. simpl. exact IH.
Qed.

Lemma HasSuffix_append (s suffix : string) :
  strings.HasSuffix (s +:+ suffix) suffix = true.
Proof.
  unfold strings.HasSuffix. rewrite length_append.
  replace (String.length s + String.length suffix - String.length suffix)%nat
    with (String.length s) by lia.
  rewrite substring_append_r, String.eqb_refl, andb_true_r.
  apply Nat.leb_le. lia.
Qed.

Lemma TrimSuffix_append (s suffix : string) :
  strings.TrimSuffix (s +:+ suffix) suffix = s.
Proof.
  unfold strings.TrimSuffix. rewrite HasSuffix_append, length_append.
  replace (String.length s + String.length suffix - String.length suffix)%nat
    with (String.length s) by lia.
  apply substring_append_l.
Qed.

Lemma TrimSuffix_no_suffix (s suffix : string) :
  strings.HasSuffix s suffix = false -> strings.TrimSuffix s suffix = s.
Proof. unfold strings.TrimSuffix. now intros ->. Qed.

Lemma HasSuffix_longer (s suffix : string) :
  (String.length s < String.length suffix)%nat ->
  strings.HasSuffix s suffix = false.
Proof.
  intros Hlt. unfold strings.HasSuffix.
  destruct (Nat.leb_spec (String.length suffix) (String.length s)); [lia|].
  reflexivity.
Qed.

(** ** Running the monad *)

Lemma bind_run {A B} (m : M A) (k : A -> M B) (w : World) :
  bind m k w = k (fst (m w)) (snd (m w)).
Proof. unfold bind. now destruct (m w). Qed.

Lemma bind_ext {A B} (m1 m2 : M A) (k1 k2 : A -> M B) :
  (forall w, m1 w = m2 w) ->
  (forall a w, k1 a w = k2 a w) ->
  forall w, bind m1 k1 w = bind m2 k2 w.
Proof. intros Hm Hk w. rewrite !bind_run, Hm. apply Hk. Qed.

(** ** Provisioning *)

(** C5.  [Provision] reports an error exactly when the API key or the API
    secret is empty, leaves the world (the upstream and the trace of
    requests) as it found it, and, when it succeeds on a provider whose
    timeout is zero, stores 30 seconds: the outcome is then the very
    outcome of provisioning the same credentials with an explicit timeout
    of 30 seconds. *)
Theorem Provision_contract (p : Provider) (w : World) :
  (snd (fst (Provision p w)) <> None <->
     APIKey p = "" \/ APISecret p = "")
  /\ snd (Provision p w) = w
  /\ (APIKey p <> "" -> APISecret p <> "" -> HTTPTimeout p = 0 ->
      HTTPTimeout (fst (fst (Provision p w))) = 30 * time.Second
      /\ Provision p w
         = Provision
             (mkProvider (APIKey p) (APISecret p) (30 * time.Second)) w).
Proof.
  unfold Provision.
  destruct (String.eqb_spec (APIKey p) "") as [Hk|Hk];
    [ cbn; intuition congruence |].
  destruct (String.eqb_spec (APISecret p) "") as [Hs|Hs];
    [ cbn; intuition congruence |].
  split; [|split].
  - destruct (HTTPTimeout p =? 0); cbn; intuition congruence.
  - now destruct (HTTPTimeout p =? 0).
  - intros _ _ ->. cbn.
    destruct (String.eqb_spec (APIKey p) "") as [|_]; [contradiction|].
    destruct (String.eqb_spec (APISecret p) "") as [|_]; [contradiction|].
    split; reflexivity.
Qed.

(** ** Batches on no record *)

(** C9.  On an empty sequence of records [AppendRecords] and
    [DeleteRecords] return an empty result and no error, and the world is
    untouched: no request reaches [http.Client.Do]. *)
Theorem batch_on_no_record (p : Provider) (ctx : Context) (zone : string)
    (w : World) :
  AppendRecords p ctx zone [] w = (([], None), w)
  /\ DeleteRecords p ctx zone [] w = (([], None), w).
Proof. split; reflexivity. Qed.

(** ** What [deleteRecord] reads of a record *)

(** C8.  Two records with the same type and the same name are deleted by
    the same computation: from any world, [deleteRecord] sends the same
    request and returns the same outcome, whatever their data and TTL. *)
Theorem deleteRecord_reads_type_and_name (p : Provider) (ctx : Context)
    (zone : string) (r1 r2 : Record_t) (w : World) :
  Type_ (RR r1) = Type_ (RR r2) ->
  Name (RR r1) = Name (RR r2) ->
  deleteRecord p ctx zone r1 w = deleteRecord p ctx zone r2 w.
Proof.
  intros Htype Hname. unfold deleteRecord, recordName.
  now rewrite Htype, Hname.
Qed.

(** ** The zone and its trailing dot *)

Section SameDomain.

Variables (p : Provider) (ctx : Context) (z1 z2 : string).
Hypothesis same_domain : strings.TrimSuffix z1 "." = strings.TrimSuffix z2 ".".

Lemma createRecord_domain (r : Record_t) (w : World) :
  createRecord p ctx z1 r w = createRecord p ctx z2 r w.
Proof. unfold createRecord. now rewrite same_domain. Qed.

Lemma deleteRecord_domain (r : Record_t) (w : World) :
  deleteRecord p ctx z1 r w = deleteRecord p ctx z2 r w.
Proof. unfold deleteRecord. now rewrite same_domain. Qed.

Lemma GetRecords_domain (w : World) :
  GetRecords p ctx z1 w = GetRecords p ctx z2 w.
Proof. unfold GetRecords. now rewrite same_domain. Qed.

Lemma AppendRecords_loop_domain (records created : list Record_t) (w : World) :
  AppendRecords_loop p ctx z1 records created w
  = AppendRecords_loop p ctx z2 records created w.
Proof.
  revert created w. induction records as [|r records IH]; intros created w;
    [reflexivity|].
  cbn [AppendRecords_loop]. apply bind_ext; [apply createRecord_domain|].
  intros [e|] w'; [reflexivity | apply IH].
Qed.

Lemma DeleteRecords_loop_domain (records deleted : list Record_t) (w : World) :
  DeleteRecords_loop p ctx z1 records deleted w
  = DeleteRecords_loop p ctx z2 records deleted w.
Proof.
  revert deleted w. induction records as [|r records IH]; intros deleted w;
    [reflexivity|].
  cbn [DeleteRecords_loop]. apply bind_ext; [apply deleteRecord_domain|].
  intros [e|] w'; [reflexivity | apply IH].
Qed.

Lemma SetRecords_scan_domain (newRecord : Record_t)
    (existingRecords : list Record_t) (w : World) :
  SetRecords_scan p ctx z1 newRecord existingRecords w
  = SetRecords_scan p ctx z2 newRecord existingRecords w.
Proof.
  revert w. induction existingRecords as [|ex existingRecords IH]; intros w;
    [reflexivity|].
  cbn [SetRecords_scan]. destruct (same_type_name ex newRecord); [|apply IH].
  apply bind_ext; [apply deleteRecord_domain|].
  intros [e|] w'; [reflexivity | apply IH].
Qed.

Lemma SetRecords_delete_domain (records existingRecords : list Record_t)
    (w : World) :
  SetRecords_delete p ctx z1 records existingRecords w
  = SetRecords_delete p ctx z2 records existingRecords w.
Proof.
  revert w. induction records as [|r records IH]; intros w; [reflexivity|].
  cbn [SetRecords_delete]. apply bind_ext; [apply SetRecords_scan_domain|].
  intros [e|] w'; [reflexivity | apply IH].
Qed.

Lemma SetRecords_domain (records : list Record_t) (w : World) :
  SetRecords p ctx z1 records w = SetRecords p ctx z2 records w.
Proof.
  unfold SetRecords. apply bind_ext; [apply GetRecords_domain|].
  intros [existing [e|]] w'; [reflexivity|].
  apply bind_ext; [apply SetRecords_delete_domain|].
  intros [e|] w''; [reflexivity | apply AppendRecords_loop_domain].
Qed.

End SameDomain.

Lemma TrimSuffix_dot (zone : string) :
  strings.HasSuffix zone "." = false ->
  strings.TrimSuffix (zone +:+ ".") "." = strings.TrimSuffix zone ".".
Proof.
  intros Hno. now rewrite TrimSuffix_append, TrimSuffix_no_suffix.
Qed.

(** C7.  Let [zone] be a zone name written without a trailing dot.  Written
    with the dot, [zone.], it is stripped of exactly that dot, and every
    operation run on [zone.] is the operation run on [zone]: from any
    world both send the same requests and return the same result. *)
Theorem zone_trailing_dot (p : Provider) (ctx : Context) (zone : string) :
  strings.HasSuffix zone "." = false ->
  strings.TrimSuffix (zone +:+ ".") "." = zone
  /\ (forall w, GetRecords p ctx (zone +:+ ".") w = GetRecords p ctx zone w)
  /\ (forall r w,
        createRecord p ctx (zone +:+ ".") r w = createRecord p ctx zone r w)
  /\ (forall r w,
        deleteRecord p ctx (zone +:+ ".") r w = deleteRecord p ctx zone r w)
  /\ (forall records w,
        AppendRecords p ctx (zone +:+ ".") records w
        = AppendRecords p ctx zone records w)
  /\ (forall records w,
        DeleteRecords p ctx (zone +:+ ".") records w
        = DeleteRecords p ctx zone records w)
  /\ (forall records w,
        SetRecords p ctx (zone +:+ ".") records w
        = SetRecords p ctx zone records w).
Proof.
  intros Hno. pose proof (TrimSuffix_dot zone Hno) as Hdom.
  split; [apply TrimSuffix_append|].
  repeat split; intros.
  - now apply GetRecords_domain.
  - now apply createRecord_domain.
  - now apply deleteRecord_domain.
  - now apply AppendRecords_loop_domain.
  - now apply DeleteRecords_loop_domain.
  - now apply SetRecords_domain.
Qed.

(** ** The name sent upstream *)

Lemma request_run (p : Provider) (req : Request Context) (w : World) :
  request p req w
  = (snd (roundTrip (upstream w) (outgoing p req)),
     mkWorld (fst (roundTrip (upstream w) (outgoing p req)))
             (sent w ++ [outgoing p req])).
Proof.
  unfold request, client_Do, outgoing.
  now destruct (roundTrip _ _).
Qed.

Lemma recordName_subdomain (domain sub : string) (r : Record_t) :
  Name (RR r) = sub +:+ "." +:+ domain ->
  sub <> domain ->
  recordName domain r = sub.
Proof.
  intros Hname Hsub. unfold recordName.
  rewrite Hname, TrimSuffix_append.
  now destruct (String.eqb_spec sub domain).
Qed.

Lemma recordName_apex (domain : string) (r : Record_t) :
  Name (RR r) = domain ->
  recordName domain r = "@".
Proof.
  intros Hname. unfold recordName.
  rewrite Hname, TrimSuffix_no_suffix, String.eqb_refl; [reflexivity|].
  apply HasSuffix_longer. rewrite length_append. simpl. lia.
Qed.

Lemma recordName_subdomain_is_domain (domain : string) (r : Record_t) :
  Name (RR r) = domain +:+ "." +:+ domain ->
  recordName domain r = "@".
Proof.
  intros Hname. unfold recordName.
  now rewrite Hname, TrimSuffix_append, String.eqb_refl.
Qed.

(** What [createRecord] sends once the record is marshalled and the URL
    parses: one [PATCH] whose body is the array of the single record, under
    the name [recordName] computes. *)
Lemma createRecord_sends (p : Provider) (ctx : Context) (zone : string)
    (r : Record_t) (w : World) (jsonData : string) :
  let domain := strings.TrimSuffix zone "." in
  json_Marshal
    [mkRR (recordName domain r) (TTL (RR r)) (Type_ (RR r)) (Data (RR r))]
  = Ok jsonData ->
  url_Parse_error (records_url domain) = None ->
  sent (snd (createRecord p ctx zone r w))
  = sent w ++ [outgoing p (mkRequest ctx "PATCH" (records_url domain) ∅
                             (Some jsonData))].
Proof.
  intros domain Hjson Hurl. unfold createRecord, http_NewRequestWithContext.
  fold domain. rewrite Hjson, Hurl, bind_run, request_run. cbn [fst snd].
  destruct (snd (roundTrip _ _)) as [resp|e]; [|reflexivity].
  now destruct (negb _).
Qed.

(** The two names of the specification's example. *)
Lemma recordName_www (ttl : Duration) (type data : string) :
  recordName (strings.TrimSuffix "example.com." ".")
    (mkRR "www.example.com" ttl type data) = "www".
Proof. reflexivity. Qed.

Lemma recordName_bare_domain (ttl : Duration) (type data : string) :
  recordName (strings.TrimSuffix "example.com." ".")
    (mkRR "example.com" ttl type data) = "@".
Proof. reflexivity. Qed.

(** C4, where the code departs from it.  In zone [example.com.] the record
    named [example.com.example.com] has the subdomain [example.com], and
    its name is not the bare domain; yet [createRecord] sends it under
    [@], in the very request it sends for the record named
    [example.com]. *)
Theorem createRecord_subdomain_equal_to_domain (p : Provider)
    (ctx : Context) (ttl : Duration) (type data : string) (w : World) :
  recordName (strings.TrimSuffix "example.com." ".")
    (mkRR "example.com.example.com" ttl type data) = "@"
  /\ createRecord p ctx "example.com."
       (mkRR "example.com.example.com" ttl type data) w
     = createRecord p ctx "example.com."
         (mkRR "example.com" ttl type data) w.
Proof. split; reflexivity. Qed.

(** ** One call, at most one request *)

Lemma trace_not_extended {A} (l : list A) (x : A) : l <> l ++ [x].
Proof.
  intros H. apply (f_equal length) in H. rewrite length_app in H.
  simpl in H. lia.
Qed.

Lemma trace_last_inj {A} (l : list A) (x y : A) : l ++ [x] = l ++ [y] -> x = y.
Proof. intros H. apply app_inv_head in H. congruence. Qed.

Lemma copy_records (l : list Record_t) :
  map (fun gr => let rr := RR gr in
                 mkRR (Name rr) (TTL rr) (Type_ rr) (Data rr)) l = l.
Proof.
  induction l as [|[n t ty d] l IH]; [reflexivity|].
  cbn [map]. f_equal. exact IH.
Qed.

(** Each of the three remote operations either fails before anything is
    sent, or sends exactly one request through [request] and decides on
    its outcome. *)
Lemma createRecord_cases (p : Provider) (ctx : Context) (zone : string)
    (r : Record_t) (w : World) :
  (exists e, createRecord p ctx zone r w = (Some e, w))
  \/ (exists req,
        let s := outgoing p req in
        createRecord p ctx zone r w
        = (match snd (roundTrip (upstream w) s) with
           | Err e => Some e
           | Ok resp =>
             if negb (StatusCode resp =? http_StatusOK) then
               Some ("failed to create DNS record: "
                       +:+ fmt.d (StatusCode resp) +:+ " " +:+ Body resp)
             else None
           end,
           mkWorld (fst (roundTrip (upstream w) s)) (sent w ++ [s]))).
Proof.
  unfold createRecord, http_NewRequestWithContext.
  destruct (json_Marshal _) as [jsonData|e]; [|left; now exists e].
  destruct (url_Parse_error _) as [e|]; [left; now exists e|].
  right. exists (mkRequest ctx "PATCH" (records_url (strings.TrimSuffix zone ".")) ∅
            (Some jsonData)). cbn zeta. rewrite bind_run, request_run. cbn [fst snd].
  destruct (snd (roundTrip _ _)) as [resp|e]; [|reflexivity].
  now destruct (negb _).
Qed.

Lemma deleteRecord_cases (p : Provider) (ctx : Context) (zone : string)
    (r : Record_t) (w : World) :
  (exists e, deleteRecord p ctx zone r w = (Some e, w))
  \/ (exists req,
        let s := outgoing p req in
        deleteRecord p ctx zone r w
        = (match snd (roundTrip (upstream w) s) with
           | Err e => Some e
           | Ok resp =>
             if negb (StatusCode resp =? http_StatusOK)
                && negb (StatusCode resp =? http_StatusNoContent) then
               Some ("failed to delete DNS record: "
                       +:+ fmt.d (StatusCode resp) +:+ " " +:+ Body resp)
             else None
           end,
           mkWorld (fst (roundTrip (upstream w) s)) (sent w ++ [s]))).
Proof.
  unfold deleteRecord, http_NewRequestWithContext.
  destruct (url_Parse_error _) as [e|]; [left; now exists e|].
  right. exists (mkRequest ctx "DELETE"
            (record_url (strings.TrimSuffix zone ".") (Type_ (RR r))
               (recordName (strings.TrimSuffix zone ".") r)) ∅ None). cbn zeta. rewrite bind_run, request_run. cbn [fst snd].
  destruct (snd (roundTrip _ _)) as [resp|e]; [|reflexivity].
  now destruct (_ && _).
Qed.

Lemma GetRecords_cases (p : Provider) (ctx : Context) (zone : string)
    (w : World) :
  (exists e, GetRecords p ctx zone w = (([], Some e), w))
  \/ (exists req,
        let s := outgoing p req in
        GetRecords p ctx zone w
        = (match snd (roundTrip (upstream w) s) with
           | Err e => ([], Some e)
           | Ok resp =>
             if negb (StatusCode resp =? http_StatusOK) then
               ([], Some ("GoDaddy API request failed: "
                            +:+ fmt.d (StatusCode resp) +:+ " " +:+ Body resp))
             else
               match json_Decode (Body resp) with
               | Err e => ([], Some e)
               | Ok godaddyRecords => (godaddyRecords, None)
               end
           end,
           mkWorld (fst (roundTrip (upstream w) s)) (sent w ++ [s]))).
Proof.
  unfold GetRecords, http_NewRequestWithContext.
  destruct (url_Parse_error _) as [e|]; [left; now exists e|].
  right. exists (mkRequest ctx "GET" (records_url (strings.TrimSuffix zone ".")) ∅ None). cbn zeta. rewrite bind_run, request_run. cbn [fst snd].
  destruct (snd (roundTrip _ _)) as [resp|e]; [|reflexivity].
  destruct (negb _); [reflexivity|].
  destruct (json_Decode _) as [l|e]; [|reflexivity].
  pose proof (copy_records l) as Hcopy. cbn zeta in Hcopy.
  now rewrite Hcopy.
Qed.

(** ** The status codes taken for success *)

Ltac one_request Hcases Hsent Hrt :=
  destruct Hcases as [[e He]|[req Hreq]];
  [ rewrite He in Hsent; cbn in Hsent;
    exfalso; exact (trace_not_extended _ _ Hsent)
  | cbn zeta in Hreq; rewrite Hreq in Hsent |- *; cbn [fst snd sent] in Hsent |- *;
    apply trace_last_inj in Hsent; rewrite Hsent, Hrt; cbn [fst snd] ].

(** C3.  Take any call that sent a request [s] and obtained a response
    [resp] for it.  [GetRecords] goes on to decode the body when the status
    is 200 and otherwise fails; [createRecord] succeeds when the status is
    200 and otherwise fails; [deleteRecord] succeeds when the status is 200
    or 204 and otherwise fails.  Every such failure is the message made of
    the operation's prefix, the status code in decimal, a space, and the
    body as received; 201 is no exception. *)
Theorem status_code_boundary (p : Provider) (ctx : Context) (zone : string) :
  (forall w s u' resp,
     sent (snd (GetRecords p ctx zone w)) = sent w ++ [s] ->
     roundTrip (upstream w) s = (u', Ok resp) ->
     (StatusCode resp = 200 ->
      fst (GetRecords p ctx zone w)
      = match json_Decode (Body resp) with
        | Ok records => (records, None)
        | Err e => ([], Some e)
        end)
     /\ (StatusCode resp <> 200 ->
         fst (GetRecords p ctx zone w)
         = ([], Some ("GoDaddy API request failed: "
                        +:+ fmt.d (StatusCode resp) +:+ " " +:+ Body resp))))
  /\ (forall r w s u' resp,
       sent (snd (createRecord p ctx zone r w)) = sent w ++ [s] ->
       roundTrip (upstream w) s = (u', Ok resp) ->
       (StatusCode resp = 200 -> fst (createRecord p ctx zone r w) = None)
       /\ (StatusCode resp <> 200 ->
           fst (createRecord p ctx zone r w)
           = Some ("failed to create DNS record: "
                     +:+ fmt.d (StatusCode resp) +:+ " " +:+ Body resp)))
  /\ (forall r w s u' resp,
       sent (snd (deleteRecord p ctx zone r w)) = sent w ++ [s] ->
       roundTrip (upstream w) s = (u', Ok resp) ->
       (StatusCode resp = 200 \/ StatusCode resp = 204 ->
        fst (deleteRecord p ctx zone r w) = None)
       /\ (StatusCode resp <> 200 -> StatusCode resp <> 204 ->
           fst (deleteRecord p ctx zone r w)
           = Some ("failed to delete DNS record: "
                     +:+ fmt.d (StatusCode resp) +:+ " " +:+ Body resp)))
  /\ fmt.d 201 = "201".
Proof.
  unfold http_StatusOK, http_StatusNoContent in *.
  split; [|split; [|split; [|reflexivity]]].
  - intros w s u' resp Hsent Hrt.
    pose proof (GetRecords_cases p ctx zone w) as Hcases.
    unfold http_StatusOK in Hcases.
    one_request Hcases Hsent Hrt.
    destruct (Z.eqb_spec (StatusCode resp) 200) as [H200|H200]; cbn [negb];
      split; intros Hst; try contradiction.
    + now destruct (json_Decode _).
    + reflexivity.
  - intros r w s u' resp Hsent Hrt.
    pose proof (createRecord_cases p ctx zone r w) as Hcases.
    unfold http_StatusOK in Hcases.
    one_request Hcases Hsent Hrt.
    destruct (Z.eqb_spec (StatusCode resp) 200) as [H200|H200]; cbn [negb];
      split; intros Hst; try contradiction; reflexivity.
  - intros r w s u' resp Hsent Hrt.
    pose proof (deleteRecord_cases p ctx zone r w) as Hcases.
    unfold http_StatusOK, http_StatusNoContent in Hcases.
    one_request Hcases Hsent Hrt.
    destruct (Z.eqb_spec (StatusCode resp) 200) as [H200|H200];
      destruct (Z.eqb_spec (StatusCode resp) 204) as [H204|H204];
      cbn [negb andb]; split; try reflexivity; intros; try contradiction;
      try lia.
Qed.

(** ** Every request goes through [request] *)

Lemma sends_only_ret (P : Sent Context -> Prop) {A} (a : A) :
  sends_only P (ret a).
Proof. intros w. exists []. now rewrite app_nil_r. Qed.

Lemma sends_only_bind (P : Sent Context -> Prop) {A B} (m : M A)
    (k : A -> M B) :
  sends_only P m -> (forall a, sends_only P (k a)) -> sends_only P (bind m k).
Proof.
  intros Hm Hk w. rewrite bind_run.
  destruct (Hm w) as (new1 & E1 & F1).
  destruct (Hk (fst (m w)) (snd (m w))) as (new2 & E2 & F2).
  exists (new1 ++ new2). split; [|now apply Forall_app].
  now rewrite E2, E1, app_assoc.
Qed.

Lemma outgoing_authenticated (p : Provider) (req : Request Context) :
  authenticated p (outgoing p req).
Proof.
  unfold authenticated, outgoing, Header_Set. cbn.
  repeat split.
  - rewrite lookup_insert_ne by discriminate. apply lookup_insert_eq.
  - apply lookup_insert_eq.
Qed.

Lemma outgoing_from_request (p : Provider) (req : Request Context)
    (w : World) :
  from_request p (outgoing p req).
Proof. exists req, w. now rewrite request_run. Qed.

Section Invariant.

Variables (p : Provider) (ctx : Context) (zone : string).

Let through_request (s : Sent Context) : Prop :=
  from_request p s /\ authenticated p s.

Ltac zero_or_one Hcases w :=
  destruct Hcases as [[e He]|[req Hreq]];
  [ rewrite He; exists []; now rewrite app_nil_r
  | cbn zeta in Hreq; rewrite Hreq; exists [outgoing p req];
    split; [reflexivity|];
    constructor; [|constructor];
    split; [apply (outgoing_from_request p req w)
           | apply outgoing_authenticated] ].

Lemma createRecord_sends_only (r : Record_t) :
  sends_only through_request (createRecord p ctx zone r).
Proof.
  intros w. pose proof (createRecord_cases p ctx zone r w) as Hcases.
  zero_or_one Hcases w.
Qed.

Lemma deleteRecord_sends_only (r : Record_t) :
  sends_only through_request (deleteRecord p ctx zone r).
Proof.
  intros w. pose proof (deleteRecord_cases p ctx zone r w) as Hcases.
  zero_or_one Hcases w.
Qed.

Lemma GetRecords_sends_only :
  sends_only through_request (GetRecords p ctx zone).
Proof.
  intros w. pose proof (GetRecords_cases p ctx zone w) as Hcases.
  zero_or_one Hcases w.
Qed.

Lemma AppendRecords_loop_sends_only (records created : list Record_t) :
  sends_only through_request (AppendRecords_loop p ctx zone records created).
Proof.
  revert created. induction records as [|r records IH]; intros created;
    [apply sends_only_ret|].
  cbn [AppendRecords_loop].
  apply sends_only_bind; [apply createRecord_sends_only|].
  intros [e|]; [apply sends_only_ret | apply IH].
Qed.

Lemma DeleteRecords_loop_sends_only (records deleted : list Record_t) :
  sends_only through_request (DeleteRecords_loop p ctx zone records deleted).
Proof.
  revert deleted. induction records as [|r records IH]; intros deleted;
    [apply sends_only_ret|].
  cbn [DeleteRecords_loop].
  apply sends_only_bind; [apply deleteRecord_sends_only|].
  intros [e|]; [apply sends_only_ret | apply IH].
Qed.

Lemma SetRecords_scan_sends_only (newRecord : Record_t)
    (existingRecords : list Record_t) :
  sends_only through_request
    (SetRecords_scan p ctx zone newRecord existingRecords).
Proof.
  induction existingRecords as [|ex existingRecords IH];
    [apply sends_only_ret|].
  cbn [SetRecords_scan]. destruct (same_type_name ex newRecord); [|exact IH].
  apply sends_only_bind; [apply deleteRecord_sends_only|].
  intros [e|]; [apply sends_only_ret | exact IH].
Qed.

Lemma SetRecords_delete_sends_only (records existingRecords : list Record_t) :
  sends_only through_request
    (SetRecords_delete p ctx zone records existingRecords).
Proof.
  induction records as [|r records IH]; [apply sends_only_ret|].
  cbn [SetRecords_delete].
  apply sends_only_bind; [apply SetRecords_scan_sends_only|].
  intros [e|]; [apply sends_only_ret | exact IH].
Qed.

Lemma SetRecords_sends_only (records : list Record_t) :
  sends_only through_request (SetRecords p ctx zone records).
Proof.
  unfold SetRecords.
  apply sends_only_bind; [apply GetRecords_sends_only|].
  intros [existing [e|]]; [apply sends_only_ret|].
  apply sends_only_bind; [apply SetRecords_delete_sends_only|].
  intros [e|]; [apply sends_only_ret | apply AppendRecords_loop_sends_only].
Qed.

End Invariant.

(** C6.  From any world, each of the four public operations only adds
    requests to the trace of [http.Client.Do], and every request it adds is
    one that the helper [request] sends: it carries
    [Authorization: sso-key <key>:<secret>] and
    [Content-Type: application/json], and the client that sends it has the
    provider's timeout. *)
Theorem every_request_through_request (p : Provider) (ctx : Context)
    (zone : string) (records : list Record_t) :
  let through_request s := from_request p s /\ authenticated p s in
  sends_only through_request (GetRecords p ctx zone)
  /\ sends_only through_request (AppendRecords p ctx zone records)
  /\ sends_only through_request (DeleteRecords p ctx zone records)
  /\ sends_only through_request (SetRecords p ctx zone records).
Proof.
  cbn zeta. repeat split.
  - apply GetRecords_sends_only.
  - apply AppendRecords_loop_sends_only.
  - apply DeleteRecords_loop_sends_only.
  - apply SetRecords_sends_only.
Qed.

(** ** Batches stop at the first failure *)

Section Batch.

Variable f : Record_t -> M (option error).
Variable prefix : string.
Variable loop : list Record_t -> list Record_t -> M (list Record_t * option error).

Hypothesis loop_nil : forall done w, loop [] done w = ((done, None), w).
Hypothesis loop_cons : forall r records done w,
  loop (r :: records) done w
  = match f r w with
    | (Some e, w1) => ((done, Some (prefix +:+ e)), w1)
    | (None, w1) => loop records (done ++ [r]) w1
    end.

Lemma loop_outcome (records done : list Record_t) (w : World) :
  (exists w', all_succeed f records w w'
              /\ loop records done w = ((done ++ records, None), w'))
  \/ (exists pre r post e w1 w',
        records = pre ++ r :: post
        /\ all_succeed f pre w w1
        /\ f r w1 = (Some e, w')
        /\ loop records done w = ((done ++ pre, Some (prefix +:+ e)), w')).
Proof.
  revert done w. induction records as [|r records IH]; intros done w.
  - left. exists w. rewrite loop_nil, app_nil_r. split; [constructor | reflexivity].
  - rewrite loop_cons. destruct (f r w) as [[e|] w1] eqn:Hr.
    + right. exists [], r, records, e, w, w1. rewrite app_nil_r.
      repeat split; [constructor | exact Hr].
    + destruct (IH (done ++ [r]) w1)
        as [(w' & Hall & Hrun)|(pre & r' & post & e & w2 & w' & -> & Hall & Hr' & Hrun)].
      * left. exists w'. rewrite Hrun, <- app_assoc.
        split; [econstructor; eassumption | reflexivity].
      * right. exists (r :: pre), r', post, e, w2, w'.
        rewrite Hrun, <- app_assoc.
        repeat split; [econstructor; eassumption | exact Hr'].
Qed.

Lemma loop_stops_at_first_failure :
  stops_at_first_failure f prefix (fun records => loop records []).
Proof. intros records w. exact (loop_outcome records [] w). Qed.

End Batch.

Lemma AppendRecords_loop_cons (p : Provider) (ctx : Context) (zone : string)
    (r : Record_t) (records created : list Record_t) (w : World) :
  AppendRecords_loop p ctx zone (r :: records) created w
  = match createRecord p ctx zone r w with
    | (Some e, w1) =>
      ((created, Some ("failed to create DNS record: " +:+ e)), w1)
    | (None, w1) => AppendRecords_loop p ctx zone records (created ++ [r]) w1
    end.
Proof.
  cbn [AppendRecords_loop]. unfold bind.
  now destruct (createRecord p ctx zone r w) as [[e|] w1].
Qed.

Lemma DeleteRecords_loop_cons (p : Provider) (ctx : Context) (zone : string)
    (r : Record_t) (records deleted : list Record_t) (w : World) :
  DeleteRecords_loop p ctx zone (r :: records) deleted w
  = match deleteRecord p ctx zone r w with
    | (Some e, w1) =>
      ((deleted, Some ("failed to delete DNS record: " +:+ e)), w1)
    | (None, w1) => DeleteRecords_loop p ctx zone records (deleted ++ [r]) w1
    end.
Proof.
  cbn [DeleteRecords_loop]. unfold bind.
  now destruct (deleteRecord p ctx zone r w) as [[e|] w1].
Qed.

(** C2.  [AppendRecords] calls [createRecord], and [DeleteRecords] calls
    [deleteRecord], on the records in input order.  If every call succeeds
    the result is the whole input and no error.  Otherwise the result is
    exactly the records before the first one whose call failed, with an
    error, and the world is the one that failing call left: the earlier
    calls are not undone and no later call is made.  So when, of three
    records, the call for the second fails, [AppendRecords] returns the
    first record alone and an error. *)
Theorem batches_stop_at_first_failure (p : Provider) (ctx : Context)
    (zone : string) :
  stops_at_first_failure (createRecord p ctx zone)
    "failed to create DNS record: " (AppendRecords p ctx zone)
  /\ stops_at_first_failure (deleteRecord p ctx zone)
       "failed to delete DNS record: " (DeleteRecords p ctx zone)
  /\ (forall r1 r2 r3 w w1 w2 e,
        createRecord p ctx zone r1 w = (None, w1) ->
        createRecord p ctx zone r2 w1 = (Some e, w2) ->
        AppendRecords p ctx zone [r1; r2; r3] w
        = (([r1], Some ("failed to create DNS record: " +:+ e)), w2)).
Proof.
  split; [|split].
  - apply (loop_stops_at_first_failure (createRecord p ctx zone)
             "failed to create DNS record: " (AppendRecords_loop p ctx zone));
      [reflexivity | apply AppendRecords_loop_cons].
  - apply (loop_stops_at_first_failure (deleteRecord p ctx zone)
             "failed to delete DNS record: " (DeleteRecords_loop p ctx zone));
      [reflexivity | apply DeleteRecords_loop_cons].
  - intros r1 r2 r3 w w1 w2 e H1 H2. unfold AppendRecords.
    now rewrite AppendRecords_loop_cons, H1, AppendRecords_loop_cons, H2.
Qed.

(** ** Reconciliation *)

Lemma delete_each_app (p : Provider) (ctx : Context) (zone : string)
    (targets1 targets2 : list Record_t) (w : World) :
  delete_each p ctx zone (targets1 ++ targets2) w
  = (err <- delete_each p ctx zone targets1 ;;
     match err with
     | Some e => ret (Some e)
     | None => delete_each p ctx zone targets2
     end) w.
Proof.
  revert w. induction targets1 as [|t targets1 IH]; intros w; [reflexivity|].
  cbn [app delete_each]. rewrite !bind_run.
  destruct (fst (deleteRecord p ctx zone t w)) as [e|]; [reflexivity|].
  rewrite IH. now rewrite bind_run.
Qed.

Lemma SetRecords_scan_filter (p : Provider) (ctx : Context) (zone : string)
    (newRecord : Record_t) (existingRecords : list Record_t) (w : World) :
  SetRecords_scan p ctx zone newRecord existingRecords w
  = delete_each p ctx zone
      (List.filter (fun existing => same_type_name existing newRecord)
                   existingRecords) w.
Proof.
  revert w. induction existingRecords as [|ex existingRecords IH]; intros w;
    [reflexivity|].
  cbn [SetRecords_scan List.filter].
  destruct (same_type_name ex newRecord); [|apply IH].
  cbn [delete_each]. apply bind_ext; [reflexivity|].
  intros [e|] w'; [reflexivity | apply IH].
Qed.

Lemma SetRecords_delete_targets (p : Provider) (ctx : Context) (zone : string)
    (records existingRecords : list Record_t) (w : World) :
  SetRecords_delete p ctx zone records existingRecords w
  = delete_each p ctx zone (delete_targets records existingRecords) w.
Proof.
  revert w. induction records as [|r records IH]; intros w; [reflexivity|].
  cbn [SetRecords_delete delete_targets List.flat_map].
  rewrite delete_each_app. apply bind_ext; [apply SetRecords_scan_filter|].
  intros [e|] w'; [reflexivity | apply IH].
Qed.

(** C1.  [SetRecords] is the reconciliation algorithm: from any world it
    does what [reconcile] does.  The fetch comes first and its failure is
    returned at once, as it is; then one delete is issued for each current
    record with the type and name of a desired record, desired records in
    input order; then the desired records are appended.  Targets are not
    merged: two desired records with one type and name make a current
    record of that type and name a target twice. *)
Theorem SetRecords_reconciles (p : Provider) (ctx : Context) (zone : string)
    (records : list Record_t) (w : World) :
  SetRecords p ctx zone records w = reconcile p ctx zone records w
  /\ (forall type name ttl1 data1 ttl2 data2 ttl data,
        delete_targets
          [mkRR name ttl1 type data1; mkRR name ttl2 type data2]
          [mkRR name ttl type data]
        = [mkRR name ttl type data; mkRR name ttl type data]).
Proof.
  split.
  - unfold SetRecords, reconcile. apply bind_ext; [reflexivity|].
    intros [existing [e|]] w'; [reflexivity|].
    apply bind_ext; [apply SetRecords_delete_targets | reflexivity].
  - intros. unfold delete_targets, same_type_name, RR. cbn.
    now rewrite !String.eqb_refl.
Qed.

(** ** What [SetRecords] returns when it fails *)

Lemma delete_each_failure (p : Provider) (ctx : Context) (zone : string)
    (targets : list Record_t) (w w' : World) (e : error) :
  delete_each p ctx zone targets w = (Some e, w') ->
  exists pre t post e0 w1,
    targets = pre ++ t :: post
    /\ all_succeed (deleteRecord p ctx zone) pre w w1
    /\ deleteRecord p ctx zone t w1 = (Some e0, w')
    /\ e = "failed to delete existing record: " +:+ e0.
Proof.
  revert w. induction targets as [|t targets IH]; intros w Hrun;
    [discriminate|].
  cbn [delete_each] in Hrun. unfold bind in Hrun.
  destruct (deleteRecord p ctx zone t w) as [[e0|] w1] eqn:Ht.
  - injection Hrun as <- <-. exists [], t, targets, e0, w.
    repeat split; [constructor | exact Ht].
  - destruct (IH w1 Hrun) as (pre & t' & post & e1 & w2 & -> & Hall & Ht' & ->).
    exists (t :: pre), t', post, e1, w2.
    repeat split; [econstructor; eassumption | exact Ht'].
Qed.

(** C10.  A failed fetch, and a failed delete, make [SetRecords] return no
    record at all with the error, also when deletes issued before the
    failing one succeeded: the world it leaves is the one those calls
    made.  After a successful fetch and successful deletes the result is
    that of [AppendRecords], so an error that comes with a non-empty list
    of records can only come from the append phase. *)
Theorem SetRecords_failures (p : Provider) (ctx : Context) (zone : string)
    (records : list Record_t) (w : World) :
  (forall l e w1,
     GetRecords p ctx zone w = ((l, Some e), w1) ->
     SetRecords p ctx zone records w = (([], Some e), w1))
  /\ (forall existing w1 e w2,
       GetRecords p ctx zone w = ((existing, None), w1) ->
       SetRecords_delete p ctx zone records existing w1 = (Some e, w2) ->
       SetRecords p ctx zone records w = (([], Some e), w2)
       /\ exists pre t post e0 w1',
            delete_targets records existing = pre ++ t :: post
            /\ all_succeed (deleteRecord p ctx zone) pre w1 w1'
            /\ deleteRecord p ctx zone t w1' = (Some e0, w2)
            /\ e = "failed to delete existing record: " +:+ e0)
  /\ (forall existing w1 w2,
       GetRecords p ctx zone w = ((existing, None), w1) ->
       SetRecords_delete p ctx zone records existing w1 = (None, w2) ->
       SetRecords p ctx zone records w = AppendRecords p ctx zone records w2)
  /\ (forall l e w',
       SetRecords p ctx zone records w = ((l, Some e), w') ->
       l <> [] ->
       exists existing w1 w2,
         GetRecords p ctx zone w = ((existing, None), w1)
         /\ SetRecords_delete p ctx zone records existing w1 = (None, w2)
         /\ AppendRecords p ctx zone records w2 = ((l, Some e), w')).
Proof.
  unfold SetRecords. rewrite bind_run. split; [|split; [|split]].
  - now intros l e w1 ->.
  - intros existing w1 e w2 -> Hdel. cbn [fst snd]. split.
    + now rewrite bind_run, Hdel.
    + rewrite SetRecords_delete_targets in Hdel.
      exact (delete_each_failure _ _ _ _ _ _ _ Hdel).
  - intros existing w1 w2 -> Hdel. cbn [fst snd]. now rewrite bind_run, Hdel.
  - intros l e w' Hrun Hl.
    destruct (GetRecords p ctx zone w) as [[existing [e0|]] w1];
      cbn [fst snd] in Hrun; [unfold ret in Hrun; congruence|].
    rewrite bind_run in Hrun.
    destruct (SetRecords_delete p ctx zone records existing w1)
      as [[e1|] w2] eqn:Hdel; cbn [fst snd] in Hrun;
      [unfold ret in Hrun; congruence|].
    now exists existing, w1, w2.
Qed.

(** * Further properties *)

(** ** The trace of one call *)

Lemma requests_of_eq {A} (m : M A) (w : World) (new : list (Sent Context)) :
  sent (snd (m w)) = sent w ++ new -> requests_of m w = new.
Proof. unfold requests_of. intros ->. apply drop_app_length. Qed.

Lemma requests_of_ret {A} (a : A) (w : World) : requests_of (ret a) w = [].
Proof. apply requests_of_eq. cbn. now rewrite app_nil_r. Qed.

(** The outcome of each remote operation, with the request it sends
    spelled out. *)
Lemma createRecord_outcome (p : Provider) (ctx : Context) (zone : string)
    (r : Record_t) (w : World) :
  let domain := strings.TrimSuffix zone "." in
  (exists e, createRecord p ctx zone r w = (Some e, w))
  \/ (exists s,
        is_create_request p ctx domain r s
        /\ createRecord p ctx zone r w
           = (match snd (roundTrip (upstream w) s) with
              | Err e => Some e
              | Ok resp =>
                if negb (StatusCode resp =? http_StatusOK) then
                  Some ("failed to create DNS record: "
                          +:+ fmt.d (StatusCode resp) +:+ " " +:+ Body resp)
                else None
              end,
              mkWorld (fst (roundTrip (upstream w) s)) (sent w ++ [s]))).
Proof.
  intros domain. unfold createRecord, http_NewRequestWithContext. fold domain.
  destruct (json_Marshal _) as [jsonData|e] eqn:Hjson; [|left; now exists e].
  destruct (url_Parse_error _) as [e|]; [left; now exists e|].
  right. eexists. split; [exists jsonData; split; [exact Hjson|reflexivity]|].
  cbn zeta. rewrite bind_run, request_run. cbn [fst snd].
  destruct (snd (roundTrip _ _)) as [resp|e]; [|reflexivity].
  now destruct (negb _).
Qed.

Lemma deleteRecord_outcome (p : Provider) (ctx : Context) (zone : string)
    (r : Record_t) (w : World) :
  let s := delete_request p ctx (strings.TrimSuffix zone ".") r in
  (exists e, deleteRecord p ctx zone r w = (Some e, w))
  \/ deleteRecord p ctx zone r w
     = (match snd (roundTrip (upstream w) s) with
        | Err e => Some e
        | Ok resp =>
          if negb (StatusCode resp =? http_StatusOK)
             && negb (StatusCode resp =? http_StatusNoContent) then
            Some ("failed to delete DNS record: "
                    +:+ fmt.d (StatusCode resp) +:+ " " +:+ Body resp)
          else None
        end,
        mkWorld (fst (roundTrip (upstream w) s)) (sent w ++ [s])).
Proof.
  cbn zeta. unfold deleteRecord, http_NewRequestWithContext, delete_request.
  destruct (url_Parse_error _) as [e|]; [left; now exists e|].
  right. cbn zeta. rewrite bind_run, request_run. cbn [fst snd].
  destruct (snd (roundTrip _ _)) as [resp|e]; [|reflexivity].
  now destruct (_ && _).
Qed.

Lemma GetRecords_outcome (p : Provider) (ctx : Context) (zone : string)
    (w : World) :
  let s := list_request p ctx (strings.TrimSuffix zone ".") in
  (exists e, GetRecords p ctx zone w = (([], Some e), w))
  \/ GetRecords p ctx zone w
     = (match snd (roundTrip (upstream w) s) with
        | Err e => ([], Some e)
        | Ok resp =>
          if negb (StatusCode resp =? http_StatusOK) then
            ([], Some ("GoDaddy API request failed: "
                         +:+ fmt.d (StatusCode resp) +:+ " " +:+ Body resp))
          else
            match json_Decode (Body resp) with
            | Err e => ([], Some e)
            | Ok godaddyRecords => (godaddyRecords, None)
            end
        end,
        mkWorld (fst (roundTrip (upstream w) s)) (sent w ++ [s])).
Proof.
  cbn zeta. unfold GetRecords, http_NewRequestWithContext, list_request.
  destruct (url_Parse_error _) as [e|]; [left; now exists e|].
  right. cbn zeta. rewrite bind_run, request_run. cbn [fst snd].
  destruct (snd (roundTrip _ _)) as [resp|e]; [|reflexivity].
  destruct (negb _); [reflexivity|].
  destruct (json_Decode _) as [l|e]; [|reflexivity].
  pose proof (copy_records l) as Hcopy. cbn zeta in Hcopy.
  now rewrite Hcopy.
Qed.

(** ** The requests of a batch *)

Section BatchTrace.

Variable f : Record_t -> M (option error).
Variable prefix : string.
Variable loop : list Record_t -> list Record_t -> M (list Record_t * option error).
Variable R : Record_t -> Sent Context -> Prop.

Hypothesis loop_nil : forall done w, loop [] done w = ((done, None), w).
Hypothesis loop_cons : forall r records done w,
  loop (r :: records) done w
  = match f r w with
    | (Some e, w1) => ((done, Some (prefix +:+ e)), w1)
    | (None, w1) => loop records (done ++ [r]) w1
    end.
Hypothesis f_outcome : forall r w,
  (exists e, f r w = (Some e, w))
  \/ (exists s, R r s /\ sent (snd (f r w)) = sent w ++ [s]).

Lemma loop_trace (records done : list Record_t) (w : World) :
  exists attempted succeeded new,
    sent (snd (loop records done w)) = sent w ++ new
    /\ Forall2 R attempted new
    /\ attempted `prefix_of` records
    /\ fst (fst (loop records done w)) = done ++ succeeded
    /\ succeeded `prefix_of` attempted
    /\ (length attempted <= S (length succeeded))%nat
    /\ (snd (fst (loop records done w)) = None ->
        attempted = records /\ succeeded = records).
Proof.
  revert done w. induction records as [|r records IH]; intros done w.
  - exists [], [], []. rewrite loop_nil. cbn [fst snd]. rewrite !app_nil_r.
    split_and!; [reflexivity | constructor | apply prefix_nil | reflexivity
                | apply prefix_nil | cbn; lia | done].
  - rewrite loop_cons.
    destruct (f_outcome r w) as [[e He]|(s & HR & Hsent)].
    + rewrite He. exists [], [], []. cbn [fst snd]. rewrite !app_nil_r.
      split_and!; [reflexivity | constructor | apply prefix_nil | reflexivity
                  | apply prefix_nil | cbn; lia | discriminate].
    + destruct (f r w) as [[e|] w1]; cbn [fst snd] in Hsent |- *.
      * exists [r], [], [s]. rewrite app_nil_r.
        split_and!; [exact Hsent | repeat constructor; exact HR
                    | apply prefix_cons, prefix_nil | reflexivity
                    | apply prefix_nil | cbn; lia | discriminate].
      * destruct (IH (done ++ [r]) w1)
          as (attempted & succeeded & new & Hnew & HF & Hpre & Hres & Hsuc
              & Hlen & Hnone).
        exists (r :: attempted), (r :: succeeded), (s :: new).
        rewrite Hnew, Hsent, Hres, <- !app_assoc. cbn [app].
        split_and!; [reflexivity | constructor; assumption
                    | apply prefix_cons; assumption | reflexivity
                    | apply prefix_cons; assumption | cbn; lia |].
        intros Herr. now destruct (Hnone Herr) as [-> ->].
Qed.

Lemma loop_requests (records : list Record_t) (w : World) :
  exists attempted,
    Forall2 R attempted (requests_of (loop records []) w)
    /\ attempted `prefix_of` records
    /\ fst (fst (loop records [] w)) `prefix_of` attempted
    /\ (length attempted <= S (length (fst (fst (loop records [] w)))))%nat
    /\ (snd (fst (loop records [] w)) = None -> attempted = records).
Proof.
  destruct (loop_trace records [] w)
    as (attempted & succeeded & new & Hnew & HF & Hpre & Hres & Hsuc & Hlen
        & Hnone).
  exists attempted. rewrite (requests_of_eq _ _ _ Hnew), Hres. cbn [app].
  split_and!; try assumption.
  intros Herr. now destruct (Hnone Herr).
Qed.

End BatchTrace.

Lemma createRecord_sends_zero_or_one (p : Provider) (ctx : Context)
    (zone : string) (r : Record_t) (w : World) :
  (exists e, createRecord p ctx zone r w = (Some e, w))
  \/ (exists s, is_create_request p ctx (strings.TrimSuffix zone ".") r s
                /\ sent (snd (createRecord p ctx zone r w)) = sent w ++ [s]).
Proof.
  destruct (createRecord_outcome p ctx zone r w) as [He|(s & Hs & Hrun)];
    [now left|].
  right. exists s. split; [exact Hs|]. now rewrite Hrun.
Qed.

Lemma deleteRecord_sends_zero_or_one (p : Provider) (ctx : Context)
    (zone : string) (r : Record_t) (w : World) :
  (exists e, deleteRecord p ctx zone r w = (Some e, w))
  \/ (exists s, is_delete_request p ctx (strings.TrimSuffix zone ".") r s
                /\ sent (snd (deleteRecord p ctx zone r w)) = sent w ++ [s]).
Proof.
  destruct (deleteRecord_outcome p ctx zone r w) as [He|Hrun]; [now left|].
  right. eexists. split; [reflexivity|]. now rewrite Hrun.
Qed.

(** X1.  The requests [AppendRecords] sends are, in order, the [PATCH]
    requests of an initial segment of its input, each to the records URL
    of the domain, with the caller's context, the provider's headers and
    timeout, and for body the array of that one record under its
    normalized name.  The segment is made of the records returned as
    created and of at most one more; it is the whole input when no error is
    returned. *)
Theorem AppendRecords_requests (p : Provider) (ctx : Context) (zone : string)
    (records : list Record_t) (w : World) :
  exists attempted,
    Forall2 (is_create_request p ctx (strings.TrimSuffix zone ".")) attempted
      (requests_of (AppendRecords p ctx zone records) w)
    /\ attempted `prefix_of` records
    /\ fst (fst (AppendRecords p ctx zone records w)) `prefix_of` attempted
    /\ (length attempted
        <= S (length (fst (fst (AppendRecords p ctx zone records w)))))%nat
    /\ (snd (fst (AppendRecords p ctx zone records w)) = None ->
        attempted = records).
Proof.
  apply (loop_requests (createRecord p ctx zone)
           "failed to create DNS record: " (AppendRecords_loop p ctx zone));
    [reflexivity | apply AppendRecords_loop_cons
    | apply createRecord_sends_zero_or_one].
Qed.

(** X2.  The requests [DeleteRecords] sends are, in order, the [DELETE]
    requests of an initial segment of its input, each to the URL made of
    the domain, the record's type and its normalized name, without body.
    The segment is made of the records returned as deleted and of at most
    one more; it is the whole input when no error is returned. *)
Theorem DeleteRecords_requests (p : Provider) (ctx : Context) (zone : string)
    (records : list Record_t) (w : World) :
  exists attempted,
    Forall2 (is_delete_request p ctx (strings.TrimSuffix zone ".")) attempted
      (requests_of (DeleteRecords p ctx zone records) w)
    /\ attempted `prefix_of` records
    /\ fst (fst (DeleteRecords p ctx zone records w)) `prefix_of` attempted
    /\ (length attempted
        <= S (length (fst (fst (DeleteRecords p ctx zone records w)))))%nat
    /\ (snd (fst (DeleteRecords p ctx zone records w)) = None ->
        attempted = records).
Proof.
  apply (loop_requests (deleteRecord p ctx zone)
           "failed to delete DNS record: " (DeleteRecords_loop p ctx zone));
    [reflexivity | apply DeleteRecords_loop_cons
    | apply deleteRecord_sends_zero_or_one].
Qed.

(** ** The requests of a reconciliation *)

Lemma AppendRecords_trace (p : Provider) (ctx : Context) (zone : string)
    (records : list Record_t) (w : World) :
  exists attempted new,
    sent (snd (AppendRecords p ctx zone records w)) = sent w ++ new
    /\ Forall2 (is_create_request p ctx (strings.TrimSuffix zone "."))
         attempted new
    /\ attempted `prefix_of` records
    /\ (snd (fst (AppendRecords p ctx zone records w)) = None ->
        attempted = records).
Proof.
  destruct (loop_trace (createRecord p ctx zone)
              "failed to create DNS record: " (AppendRecords_loop p ctx zone)
              (is_create_request p ctx (strings.TrimSuffix zone "."))
              (fun _ _ => eq_refl) (AppendRecords_loop_cons p ctx zone)
              (createRecord_sends_zero_or_one p ctx zone) records [] w)
    as (attempted & succeeded & new & Hnew & HF & Hpre & _ & _ & _ & Hnone).
  exists attempted, new. split_and!; try assumption.
  intros Herr. now destruct (Hnone Herr).
Qed.

Lemma delete_each_trace (p : Provider) (ctx : Context) (zone : string)
    (targets : list Record_t) (w : World) :
  exists attempted new,
    sent (snd (delete_each p ctx zone targets w)) = sent w ++ new
    /\ Forall2 (is_delete_request p ctx (strings.TrimSuffix zone "."))
         attempted new
    /\ attempted `prefix_of` targets
    /\ (fst (delete_each p ctx zone targets w) = None ->
        attempted = targets).
Proof.
  revert w. induction targets as [|t targets IH]; intros w.
  - exists [], []. cbn. rewrite app_nil_r.
    split_and!; [reflexivity | constructor | apply prefix_nil | done].
  - cbn [delete_each]. rewrite bind_run.
    destruct (deleteRecord_sends_zero_or_one p ctx zone t w)
      as [[e He]|(s & Hs & Hsent)].
    + rewrite He. exists [], []. cbn. rewrite app_nil_r.
      split_and!; [reflexivity | constructor | apply prefix_nil
                  | discriminate].
    + destruct (deleteRecord p ctx zone t w) as [[e|] w1];
        cbn [fst snd] in Hsent |- *.
      * exists [t], [s].
        split_and!; [exact Hsent | repeat constructor; exact Hs
                    | apply prefix_cons, prefix_nil | discriminate].
      * destruct (IH w1) as (attempted & new & Hnew & HF & Hpre & Hnone).
        exists (t :: attempted), (s :: new).
        rewrite Hnew, Hsent, <- app_assoc.
        split_and!; [reflexivity | constructor; assumption
                    | apply prefix_cons; assumption |].
        intros Herr. now rewrite (Hnone Herr).
Qed.

Lemma SetRecords_trace (p : Provider) (ctx : Context) (zone : string)
    (records : list Record_t) (w : World) :
  let domain := strings.TrimSuffix zone "." in
  let existing := fst (fst (GetRecords p ctx zone w)) in
  exists deleted deletes created creates,
    requests_of (SetRecords p ctx zone records) w
    = requests_of (GetRecords p ctx zone) w ++ deletes ++ creates
    /\ Forall2 (is_delete_request p ctx domain) deleted deletes
    /\ deleted `prefix_of` delete_targets records existing
    /\ Forall2 (is_create_request p ctx domain) created creates
    /\ created `prefix_of` records
    /\ (creates <> [] -> deleted = delete_targets records existing)
    /\ (snd (fst (SetRecords p ctx zone records w)) = None ->
        deleted = delete_targets records existing /\ created = records).
Proof.
  intros domain existing. subst existing. unfold SetRecords.
  assert (exists new, sent (snd (GetRecords p ctx zone w)) = sent w ++ new)
    as [gets Hgets].
  { destruct (GetRecords_outcome p ctx zone w) as [[e He]|Hrun].
    - exists []. rewrite He. cbn. now rewrite app_nil_r.
    - eexists. rewrite Hrun. reflexivity. }
  rewrite (requests_of_eq _ _ _ Hgets).
  destruct (GetRecords p ctx zone w) as [[existing [e|]] w1] eqn:Hget;
    cbn [fst snd] in Hgets |- *.
  - exists [], [], [], []. rewrite !app_nil_r.
    split_and!; [| constructor | apply prefix_nil | constructor
                | apply prefix_nil | done |].
    + apply requests_of_eq. rewrite bind_run, Hget. exact Hgets.
    + rewrite bind_run, Hget. discriminate.
  - destruct (delete_each_trace p ctx zone
                (delete_targets records existing) w1)
      as (deleted & deletes & Hdel & HFd & Hpred & Hdnone).
    destruct (delete_each p ctx zone (delete_targets records existing) w1)
      as [[e|] w2] eqn:Hdelete; cbn [fst snd] in Hdel, Hdnone.
    + exists deleted, deletes, [], []. rewrite app_nil_r.
      split_and!; [| assumption | assumption | constructor
                  | apply prefix_nil | done |].
      * apply requests_of_eq.
        rewrite bind_run, Hget. cbn [fst snd].
        rewrite bind_run, SetRecords_delete_targets, Hdelete.
        unfold ret. cbn [fst snd].
        now rewrite Hdel, Hgets, app_assoc.
      * rewrite bind_run, Hget. cbn [fst snd].
        rewrite bind_run, SetRecords_delete_targets, Hdelete. discriminate.
    + destruct (AppendRecords_trace p ctx zone records w2)
        as (created & creates & Hcre & HFc & Hprec & Hcnone).
      exists deleted, deletes, created, creates.
      assert (SetRecords p ctx zone records w
              = AppendRecords p ctx zone records w2) as Hrun.
      { unfold SetRecords. rewrite bind_run, Hget. cbn [fst snd].
        now rewrite bind_run, SetRecords_delete_targets, Hdelete. }
      unfold SetRecords in Hrun. rewrite Hrun.
      split_and!; try assumption.
      * apply requests_of_eq. rewrite Hrun, Hcre, Hdel, Hgets.
        now rewrite <- !app_assoc.
      * intros _. now apply Hdnone.
      * intros Herr. split; [now apply Hdnone | now apply Hcnone].
Qed.

(** X3.  The requests [SetRecords] sends come in three runs, in this
    order: what [GetRecords] sends; the [DELETE] requests, in order, of an
    initial segment of the delete targets computed from the fetched
    records; the [PATCH] requests, in order, of an initial segment of the
    desired records.  No [PATCH] is sent before the [DELETE] of every
    target was sent, and when no error is returned both segments are
    whole. *)
Theorem SetRecords_requests (p : Provider) (ctx : Context) (zone : string)
    (records : list Record_t) (w : World) :
  let domain := strings.TrimSuffix zone "." in
  let existing := fst (fst (GetRecords p ctx zone w)) in
  exists deleted deletes created creates,
    requests_of (SetRecords p ctx zone records) w
    = requests_of (GetRecords p ctx zone) w ++ deletes ++ creates
    /\ Forall2 (is_delete_request p ctx domain) deleted deletes
    /\ deleted `prefix_of` delete_targets records existing
    /\ Forall2 (is_create_request p ctx domain) created creates
    /\ created `prefix_of` records
    /\ (creates <> [] -> deleted = delete_targets records existing)
    /\ (snd (fst (SetRecords p ctx zone records w)) = None ->
        deleted = delete_targets records existing /\ created = records).
Proof. exact (SetRecords_trace p ctx zone records w). Qed.

Lemma GetRecords_requests_cases (p : Provider) (ctx : Context)
    (zone : string) (w : World) :
  requests_of (GetRecords p ctx zone) w = []
  \/ requests_of (GetRecords p ctx zone) w
     = [list_request p ctx (strings.TrimSuffix zone ".")].
Proof.
  destruct (GetRecords_outcome p ctx zone w) as [[e He]|Hrun].
  - left. apply requests_of_eq. rewrite He. cbn. now rewrite app_nil_r.
  - right. apply requests_of_eq. now rewrite Hrun.
Qed.

Lemma delete_targets_desired (records existing : list Record_t)
    (ex : Record_t) :
  ex ∈ delete_targets records existing ->
  exists n, n ∈ records /\ ex ∈ existing /\ same_type_name ex n = true.
Proof.
  unfold delete_targets. rewrite list_elem_of_In, in_flat_map.
  intros (n & Hn & Hex). apply filter_In in Hex as [Hex Hsame].
  exists n. now rewrite !list_elem_of_In.
Qed.

Lemma delete_request_type_name (p : Provider) (ctx : Context)
    (domain : string) (r1 r2 : Record_t) :
  same_type_name r1 r2 = true ->
  delete_request p ctx domain r1 = delete_request p ctx domain r2.
Proof.
  unfold same_type_name. intros [Htype Hname]%andb_true_iff.
  apply String.eqb_eq in Htype, Hname.
  unfold delete_request, recordName. now rewrite Htype, Hname.
Qed.

(** X4.  [SetRecords] deletes nothing but what is to be replaced: every
    [DELETE] it sends is the delete request of a desired record, that is,
    for the type and the normalized name of one of the records it was
    given. *)
Theorem SetRecords_deletes_only_desired (p : Provider) (ctx : Context)
    (zone : string) (records : list Record_t) (w : World) :
  Forall
    (fun s =>
       Method (sent_req s) = "DELETE" ->
       exists n,
         n ∈ records
         /\ s = delete_request p ctx (strings.TrimSuffix zone ".") n)
    (requests_of (SetRecords p ctx zone records) w).
Proof.
  destruct (SetRecords_trace p ctx zone records w)
    as (deleted & deletes & created & creates & -> & HFd & Hpred & HFc & _).
  rewrite !Forall_app. split_and!.
  - destruct (GetRecords_requests_cases p ctx zone w) as [-> | ->];
      repeat constructor. discriminate.
  - eapply Forall2_Forall_r; [exact HFd|].
    apply Forall_forall. intros ex Hex s Hs _. rewrite Hs.
    destruct (delete_targets_desired records
                (fst (fst (GetRecords p ctx zone w))) ex)
      as (n & Hn & _ & Hsame); [now apply (elem_of_prefix deleted)|].
    exists n. split; [exact Hn|]. now apply delete_request_type_name.
  - induction HFc as [|r s created creates (j & _ & ->) _ IH]; constructor;
      [discriminate | exact IH].
Qed.


(** ** Failures of the transport, and what success means *)

(** X5.  When a request was sent and the client reported a failure instead
    of a response, [GetRecords], [createRecord] and [deleteRecord] return
    that failure as it is, [GetRecords] with no record; the request is not
    sent again. *)
Theorem transport_failure_returned (p : Provider) (ctx : Context)
    (zone : string) :
  (forall w s u' e,
     sent (snd (GetRecords p ctx zone w)) = sent w ++ [s] ->
     roundTrip (upstream w) s = (u', Err e) ->
     GetRecords p ctx zone w = (([], Some e), mkWorld u' (sent w ++ [s])))
  /\ (forall r w s u' e,
       sent (snd (createRecord p ctx zone r w)) = sent w ++ [s] ->
       roundTrip (upstream w) s = (u', Err e) ->
       createRecord p ctx zone r w = (Some e, mkWorld u' (sent w ++ [s])))
  /\ (forall r w s u' e,
       sent (snd (deleteRecord p ctx zone r w)) = sent w ++ [s] ->
       roundTrip (upstream w) s = (u', Err e) ->
       deleteRecord p ctx zone r w = (Some e, mkWorld u' (sent w ++ [s]))).
Proof.
  split_and!.
  - intros w s u' failure Hsent Hrt.
    pose proof (GetRecords_cases p ctx zone w) as Hcases.
    one_request Hcases Hsent Hrt. reflexivity.
  - intros r w s u' failure Hsent Hrt.
    pose proof (createRecord_cases p ctx zone r w) as Hcases.
    one_request Hcases Hsent Hrt. reflexivity.
  - intros r w s u' failure Hsent Hrt.
    pose proof (deleteRecord_cases p ctx zone r w) as Hcases.
    one_request Hcases Hsent Hrt. reflexivity.
Qed.

(** X6.  Success is never assumed.  When [createRecord] returns no error,
    it sent its one request and the upstream answered it with status 200;
    for [deleteRecord], with status 200 or 204; when [GetRecords] returns
    no error, the upstream answered its one request with status 200 and a
    body that decodes to the records returned. *)
Theorem success_comes_from_upstream (p : Provider) (ctx : Context)
    (zone : string) :
  let domain := strings.TrimSuffix zone "." in
  (forall r w w',
     createRecord p ctx zone r w = (None, w') ->
     exists s resp,
       is_create_request p ctx domain r s
       /\ roundTrip (upstream w) s = (upstream w', Ok resp)
       /\ StatusCode resp = 200
       /\ sent w' = sent w ++ [s])
  /\ (forall r w w',
       deleteRecord p ctx zone r w = (None, w') ->
       exists resp,
         roundTrip (upstream w) (delete_request p ctx domain r)
         = (upstream w', Ok resp)
         /\ (StatusCode resp = 200 \/ StatusCode resp = 204)
         /\ sent w' = sent w ++ [delete_request p ctx domain r])
  /\ (forall records w w',
       GetRecords p ctx zone w = ((records, None), w') ->
       exists resp,
         roundTrip (upstream w) (list_request p ctx domain)
         = (upstream w', Ok resp)
         /\ StatusCode resp = 200
         /\ json_Decode (Body resp) = Ok records
         /\ sent w' = sent w ++ [list_request p ctx domain]).
Proof.
  intros domain. unfold http_StatusOK, http_StatusNoContent. split_and!.
  - intros r w w' Hrun.
    destruct (createRecord_outcome p ctx zone r w) as [[e He]|(s & Hs & Hout)];
      [congruence|].
    rewrite Hrun in Hout. unfold http_StatusOK in Hout.
    destruct (roundTrip (upstream w) s) as [u' [resp|e]] eqn:Hrt;
      cbn [fst snd] in Hout; [|discriminate].
    destruct (Z.eqb_spec (StatusCode resp) 200) as [H200|H200];
      cbn [negb] in Hout; [|discriminate].
    injection Hout as ->. exists s, resp. now split_and!.
  - intros r w w' Hrun.
    destruct (deleteRecord_outcome p ctx zone r w) as [[e He]|Hout];
      [congruence|].
    rewrite Hrun in Hout. unfold http_StatusOK, http_StatusNoContent in Hout.
    fold domain in Hout.
    destruct (roundTrip (upstream w) (delete_request p ctx domain r))
      as [u' [resp|e]] eqn:Hrt; cbn [fst snd] in Hout; [|discriminate].
    destruct (Z.eqb_spec (StatusCode resp) 200) as [H200|H200];
      destruct (Z.eqb_spec (StatusCode resp) 204) as [H204|H204];
      cbn [negb andb] in Hout; try discriminate;
      injection Hout as ->; exists resp; split_and!; auto.
  - intros records w w' Hrun.
    destruct (GetRecords_outcome p ctx zone w) as [[e He]|Hout];
      [congruence|].
    rewrite Hrun in Hout. unfold http_StatusOK in Hout. fold domain in Hout.
    destruct (roundTrip (upstream w) (list_request p ctx domain))
      as [u' [resp|e]] eqn:Hrt; cbn [fst snd] in Hout; [|discriminate].
    destruct (Z.eqb_spec (StatusCode resp) 200) as [H200|H200];
      cbn [negb] in Hout; [|discriminate].
    destruct (json_Decode (Body resp)) as [l|e] eqn:Hdec; [|discriminate].
    injection Hout as -> ->. exists resp. now split_and!.
Qed.

(** ** What the results say *)

Section BatchResult.

Variable f : Record_t -> M (option error).
Variable prefix : string.
Variable loop : list Record_t -> list Record_t -> M (list Record_t * option error).

Hypothesis loop_nil : forall done w, loop [] done w = ((done, None), w).
Hypothesis loop_cons : forall r records done w,
  loop (r :: records) done w
  = match f r w with
    | (Some e, w1) => ((done, Some (prefix +:+ e)), w1)
    | (None, w1) => loop records (done ++ [r]) w1
    end.

Lemma loop_result (records : list Record_t) (w : World) :
  fst (fst (loop records [] w)) `prefix_of` records
  /\ (snd (fst (loop records [] w)) = None
      <-> fst (fst (loop records [] w)) = records).
Proof.
  destruct (loop_outcome f prefix loop loop_nil loop_cons records [] w)
    as [(w' & _ & ->)|(pre & r & post & e & w1 & w' & -> & _ & _ & ->)];
    cbn [fst snd app].
  - split; [reflexivity | done].
  - split; [now exists (r :: post)|].
    split; [discriminate|]. intros H. apply (f_equal length) in H.
    rewrite length_app in H. cbn in H. lia.
Qed.

(** Running the loop on [l1 ++ l2] is running it on [l1] and, unless that
    failed, going on with [l2]. *)
Lemma loop_app (l1 l2 done : list Record_t) (w : World) :
  loop (l1 ++ l2) done w
  = match loop l1 done w with
    | ((done1, Some e), w1) => ((done1, Some e), w1)
    | ((done1, None), w1) => loop l2 done1 w1
    end.
Proof.
  revert done w. induction l1 as [|r l1 IH]; intros done w.
  - now rewrite loop_nil.
  - cbn [app]. rewrite !loop_cons.
    destruct (f r w) as [[e|] w1]; [reflexivity | apply IH].
Qed.

Lemma loop_done (records done : list Record_t) (w : World) :
  loop records done w
  = ((done ++ fst (fst (loop records [] w)), snd (fst (loop records [] w))),
     snd (loop records [] w)).
Proof.
  revert done w. induction records as [|r records IH]; intros done w.
  - rewrite !loop_nil. cbn. now rewrite app_nil_r.
  - rewrite !loop_cons. destruct (f r w) as [[e|] w1].
    + cbn. now rewrite app_nil_r.
    + rewrite (IH (done ++ [r])), (IH ([] ++ [r])). cbn [fst snd app].
      now rewrite <- app_assoc.
Qed.

Lemma loop_split (l1 l2 : list Record_t) (w : World) :
  loop (l1 ++ l2) [] w
  = match loop l1 [] w with
    | ((done1, Some e), w1) => ((done1, Some e), w1)
    | ((done1, None), w1) =>
      ((done1 ++ fst (fst (loop l2 [] w1)), snd (fst (loop l2 [] w1))),
       snd (loop l2 [] w1))
    end.
Proof.
  rewrite loop_app. destruct (loop l1 [] w) as [[done1 [e|]] w1];
    [reflexivity | apply loop_done].
Qed.

End BatchResult.

(** X7.  The result of a batch tells how far it went: the records
    returned by [AppendRecords], and by [DeleteRecords], are an initial
    segment of the input, and they are the whole input exactly when no
    error is returned. *)
Theorem batch_error_iff_incomplete (p : Provider) (ctx : Context)
    (zone : string) (records : list Record_t) (w : World) :
  (fst (fst (AppendRecords p ctx zone records w)) `prefix_of` records
   /\ (snd (fst (AppendRecords p ctx zone records w)) = None
       <-> fst (fst (AppendRecords p ctx zone records w)) = records))
  /\ (fst (fst (DeleteRecords p ctx zone records w)) `prefix_of` records
      /\ (snd (fst (DeleteRecords p ctx zone records w)) = None
          <-> fst (fst (DeleteRecords p ctx zone records w)) = records)).
Proof.
  split.
  - apply (loop_result (createRecord p ctx zone)
             "failed to create DNS record: " (AppendRecords_loop p ctx zone));
      [reflexivity | apply AppendRecords_loop_cons].
  - apply (loop_result (deleteRecord p ctx zone)
             "failed to delete DNS record: " (DeleteRecords_loop p ctx zone));
      [reflexivity | apply DeleteRecords_loop_cons].
Qed.

(** X8.  A batch can be cut anywhere.  [AppendRecords] on [l1 ++ l2] does
    what [AppendRecords] on [l1] does and, if that returned no error, what
    [AppendRecords] on [l2] does from the world reached, the two results
    put end to end; if it returned an error, that is the outcome and
    nothing of [l2] is sent.  The same holds of [DeleteRecords]. *)
Theorem batch_of_concatenation (p : Provider) (ctx : Context)
    (zone : string) (l1 l2 : list Record_t) (w : World) :
  AppendRecords p ctx zone (l1 ++ l2) w
  = match AppendRecords p ctx zone l1 w with
    | ((created1, Some e), w1) => ((created1, Some e), w1)
    | ((created1, None), w1) =>
      ((created1 ++ fst (fst (AppendRecords p ctx zone l2 w1)),
        snd (fst (AppendRecords p ctx zone l2 w1))),
       snd (AppendRecords p ctx zone l2 w1))
    end
  /\ DeleteRecords p ctx zone (l1 ++ l2) w
     = match DeleteRecords p ctx zone l1 w with
       | ((deleted1, Some e), w1) => ((deleted1, Some e), w1)
       | ((deleted1, None), w1) =>
         ((deleted1 ++ fst (fst (DeleteRecords p ctx zone l2 w1)),
           snd (fst (DeleteRecords p ctx zone l2 w1))),
          snd (DeleteRecords p ctx zone l2 w1))
       end.
Proof.
  split.
  - apply (loop_split (createRecord p ctx zone)
             "failed to create DNS record: " (AppendRecords_loop p ctx zone));
      [reflexivity | apply AppendRecords_loop_cons].
  - apply (loop_split (deleteRecord p ctx zone)
             "failed to delete DNS record: " (DeleteRecords_loop p ctx zone));
      [reflexivity | apply DeleteRecords_loop_cons].
Qed.

(** ** More on reconciliation *)

Lemma SetRecords_run (p : Provider) (ctx : Context) (zone : string)
    (records : list Record_t) (w : World) :
  SetRecords p ctx zone records w
  = match GetRecords p ctx zone w with
    | ((_, Some e), w1) => (([], Some e), w1)
    | ((existing, None), w1) =>
      match delete_each p ctx zone (delete_targets records existing) w1 with
      | (Some e, w2) => (([], Some e), w2)
      | (None, w2) => AppendRecords p ctx zone records w2
      end
    end.
Proof.
  unfold SetRecords. rewrite bind_run.
  destruct (GetRecords p ctx zone w) as [[existing [e|]] w1];
    cbn [fst snd]; [reflexivity|].
  rewrite bind_run, SetRecords_delete_targets.
  now destruct (delete_each p ctx zone _ w1) as [[e|] w2].
Qed.

(** X9.  The records [SetRecords] returns are an initial segment of the
    desired records; they are all of them when no error is returned; and
    when there is a desired record at all, returning all of them means
    that no error is returned. *)
Theorem SetRecords_result (p : Provider) (ctx : Context) (zone : string)
    (records : list Record_t) (w : World) :
  fst (fst (SetRecords p ctx zone records w)) `prefix_of` records
  /\ (snd (fst (SetRecords p ctx zone records w)) = None ->
      fst (fst (SetRecords p ctx zone records w)) = records)
  /\ (records <> [] ->
      fst (fst (SetRecords p ctx zone records w)) = records ->
      snd (fst (SetRecords p ctx zone records w)) = None).
Proof.
  rewrite SetRecords_run.
  destruct (GetRecords p ctx zone w) as [[existing [e|]] w1]; cbn [fst snd].
  { split_and!; [apply prefix_nil | discriminate | congruence]. }
  destruct (delete_each p ctx zone _ w1) as [[e|] w2]; cbn [fst snd].
  { split_and!; [apply prefix_nil | discriminate | congruence]. }
  destruct (loop_result (createRecord p ctx zone)
              "failed to create DNS record: " (AppendRecords_loop p ctx zone)
              (fun _ _ => eq_refl) (AppendRecords_loop_cons p ctx zone)
              records w2) as [Hpre Hiff].
  split_and!; [exact Hpre | apply Hiff | intros _; apply Hiff].
Qed.

Lemma delete_targets_none (records existing : list Record_t) :
  (forall n ex, n ∈ records -> ex ∈ existing -> same_type_name ex n = false) ->
  delete_targets records existing = [].
Proof.
  intros Hno. destruct (delete_targets records existing) as [|ex l] eqn:Ht;
    [reflexivity|].
  destruct (delete_targets_desired records existing ex)
    as (n & Hn & Hex & Hsame); [rewrite Ht; apply list_elem_of_here|].
  rewrite (Hno n ex Hn Hex) in Hsame. discriminate.
Qed.

(** X10.  When the fetch succeeds and no fetched record has the type and
    name of a desired record, [SetRecords] deletes nothing: it goes on, from
    the world the fetch left, exactly as [AppendRecords] does.  With no
    desired record at all, it fetches and returns no record and no
    error. *)
Theorem SetRecords_nothing_to_replace (p : Provider) (ctx : Context)
    (zone : string) (records existing : list Record_t) (w w1 : World) :
  GetRecords p ctx zone w = ((existing, None), w1) ->
  (forall n ex, n ∈ records -> ex ∈ existing -> same_type_name ex n = false) ->
  SetRecords p ctx zone records w = AppendRecords p ctx zone records w1
  /\ SetRecords p ctx zone [] w = (([], None), w1).
Proof.
  intros Hget Hno. rewrite !SetRecords_run, Hget.
  rewrite (delete_targets_none records existing Hno). split; reflexivity.
Qed.


(** ** More on provisioning and on names *)

(** X12.  [Provision] never changes the credentials and keeps a timeout
    that is not zero, negative ones included.  When it reports no error the
    provider it leaves has a non-empty key, a non-empty secret and a
    timeout that is not zero; when it reports an error the provider is
    left as it was.  Provisioning the provider it leaves changes nothing
    and gives the same verdict. *)
Theorem Provision_leaves (p : Provider) (w : World) :
  let p' := fst (fst (Provision p w)) in
  let verdict := snd (fst (Provision p w)) in
  APIKey p' = APIKey p
  /\ APISecret p' = APISecret p
  /\ (HTTPTimeout p <> 0 -> HTTPTimeout p' = HTTPTimeout p)
  /\ (verdict = None ->
      APIKey p' <> "" /\ APISecret p' <> "" /\ HTTPTimeout p' <> 0)
  /\ (verdict <> None -> p' = p)
  /\ Provision p' w = ((p', verdict), w).
Proof.
  cbn zeta. unfold Provision.
  destruct (String.eqb_spec (APIKey p) "") as [Hk|Hk].
  { cbn. rewrite Hk. cbn. split_and!; try done. }
  destruct (String.eqb_spec (APISecret p) "") as [Hs|Hs].
  { cbn. destruct (String.eqb_spec (APIKey p) ""); [done|].
    rewrite Hs. cbn. split_and!; try done. }
  destruct (Z.eqb_spec (HTTPTimeout p) 0) as [Ht|Ht]; cbn.
  - destruct (String.eqb_spec (APIKey p) ""); [done|].
    destruct (String.eqb_spec (APISecret p) ""); [done|].
    split_and!; done.
  - destruct (String.eqb_spec (APIKey p) ""); [done|].
    destruct (String.eqb_spec (APISecret p) ""); [done|].
    destruct (Z.eqb_spec (HTTPTimeout p) 0); [done|].
    split_and!; done.
Qed.

(** X13.  The name [createRecord] puts in the body and [deleteRecord] in
    the URL.  A name [sub.domain] with [sub] other than the domain is sent
    as [sub]; the domain itself is sent as [@]; any other name, one that
    neither ends in [.domain] nor is the domain, is sent as it is. *)
Theorem name_sent_upstream (domain : string) (r : Record_t) :
  (forall sub,
     Name (RR r) = sub +:+ "." +:+ domain -> sub <> domain ->
     recordName domain r = sub)
  /\ (Name (RR r) = domain -> recordName domain r = "@")
  /\ (strings.HasSuffix (Name (RR r)) ("." +:+ domain) = false ->
      Name (RR r) <> domain ->
      recordName domain r = Name (RR r)).
Proof.
  split_and!.
  - intros sub. apply recordName_subdomain.
  - apply recordName_apex.
  - intros Hsuffix Hname. unfold recordName.
    rewrite (TrimSuffix_no_suffix _ _ Hsuffix).
    now destruct (String.eqb_spec (Name (RR r)) domain).
Qed.

(** ** Reading, and the timeout of a provisioned provider *)

(** X14.  [GetRecords] only reads.  It sends at most one request, the
    [GET] of the records URL of the domain, without body; it sends none
    only when it fails before sending, the world being left as it was;
    and whenever it returns an error it returns no record. *)
Theorem GetRecords_only_reads (p : Provider) (ctx : Context) (zone : string)
    (w : World) :
  (requests_of (GetRecords p ctx zone) w = []
   \/ requests_of (GetRecords p ctx zone) w
      = [list_request p ctx (strings.TrimSuffix zone ".")])
  /\ (requests_of (GetRecords p ctx zone) w = [] ->
      exists e, GetRecords p ctx zone w = (([], Some e), w))
  /\ (snd (fst (GetRecords p ctx zone w)) <> None ->
      fst (fst (GetRecords p ctx zone w)) = []).
Proof.
  split; [apply GetRecords_requests_cases|].
  destruct (GetRecords_outcome p ctx zone w) as [[e He]|Hrun].
  - rewrite He. split; [now exists e | reflexivity].
  - split.
    + intros Hnone.
      rewrite (requests_of_eq _ w
                 [list_request p ctx (strings.TrimSuffix zone ".")]) in Hnone;
        [discriminate | now rewrite Hrun].
    + rewrite Hrun. cbn [fst snd].
      destruct (snd (roundTrip _ _)) as [resp|e]; [|reflexivity].
      destruct (negb _); [reflexivity|].
      now destruct (json_Decode _).
Qed.

Lemma sends_only_weaken (P Q : Sent Context -> Prop) {A} (m : M A) :
  (forall s, P s -> Q s) -> sends_only P m -> sends_only Q m.
Proof.
  intros HPQ Hm w. destruct (Hm w) as (new & Hnew & HF).
  exists new. split; [exact Hnew|]. eapply Forall_impl; eauto.
Qed.

(** X15.  Once [Provision] has accepted a provider, no request of the
    four operations is sent without a timeout: every request carries the
    timeout of the provisioned provider, which is not zero, and is 30
    seconds when none was configured. *)
Theorem provisioned_requests_have_timeout (p p' : Provider) (w0 w0' : World)
    (ctx : Context) (zone : string) (records : list Record_t) :
  Provision p w0 = ((p', None), w0') ->
  let timed s :=
    sent_Timeout s = HTTPTimeout p'
    /\ sent_Timeout s <> 0
    /\ (HTTPTimeout p = 0 -> sent_Timeout s = 30 * time.Second) in
  sends_only timed (GetRecords p' ctx zone)
  /\ sends_only timed (AppendRecords p' ctx zone records)
  /\ sends_only timed (DeleteRecords p' ctx zone records)
  /\ sends_only timed (SetRecords p' ctx zone records).
Proof.
  intros Hprov timed.
  assert (HTTPTimeout p' <> 0
          /\ (HTTPTimeout p = 0 -> HTTPTimeout p' = 30 * time.Second))
    as [Hnz Hdefault].
  { unfold Provision in Hprov.
    destruct (String.eqb (APIKey p) ""); [discriminate|].
    destruct (String.eqb (APISecret p) ""); [discriminate|].
    destruct (Z.eqb_spec (HTTPTimeout p) 0) as [H0|H0];
      injection Hprov as <- _; cbn; split; done. }
  assert (forall s, from_request p' s /\ authenticated p' s -> timed s)
    as Htimed.
  { intros s (_ & _ & _ & Ht). unfold timed. rewrite Ht. now split_and!. }
  split_and!; eapply sends_only_weaken; try exact Htimed.
  - apply GetRecords_sends_only.
  - apply AppendRecords_loop_sends_only.
  - apply DeleteRecords_loop_sends_only.
  - apply SetRecords_sends_only.
Qed.

(** ** How many requests *)

Lemma delete_targets_length (records existing : list Record_t) :
  (length (delete_targets records existing)
   <= length records * length existing)%nat.
Proof.
  unfold delete_targets. induction records as [|n records IH]; cbn; [lia|].
  rewrite length_app.
  pose proof (List.filter_length_le
                (fun ex => same_type_name ex n) existing) as Hle.
  lia.
Qed.

(** X19.  The number of requests of each operation is bounded by its
    input: [GetRecords] sends at most one request, [AppendRecords] and
    [DeleteRecords] at most one per record, and [SetRecords] at most one
    for the fetch, one per pair of a desired and a fetched record, and one
    per desired record. *)
Theorem requests_bounded (p : Provider) (ctx : Context) (zone : string)
    (records : list Record_t) (w : World) :
  (length (requests_of (GetRecords p ctx zone) w) <= 1)%nat
  /\ (length (requests_of (AppendRecords p ctx zone records) w)
      <= length records)%nat
  /\ (length (requests_of (DeleteRecords p ctx zone records) w)
      <= length records)%nat
  /\ (length (requests_of (SetRecords p ctx zone records) w)
      <= 1 + length records * length (fst (fst (GetRecords p ctx zone w)))
         + length records)%nat.
Proof.
  assert ((length (requests_of (GetRecords p ctx zone) w) <= 1)%nat) as Hget.
  { destruct (GetRecords_requests_cases p ctx zone w) as [-> | ->]; cbn; lia. }
  split_and!; [exact Hget | | |].
  - destruct (loop_requests (createRecord p ctx zone)
                "failed to create DNS record: "
                (AppendRecords_loop p ctx zone)
                (is_create_request p ctx (strings.TrimSuffix zone "."))
                (fun _ _ => eq_refl) (AppendRecords_loop_cons p ctx zone)
                (createRecord_sends_zero_or_one p ctx zone) records w)
      as (attempted & HF & Hpre & _).
    apply Forall2_length in HF. apply prefix_length in Hpre.
    unfold AppendRecords. lia.
  - destruct (loop_requests (deleteRecord p ctx zone)
                "failed to delete DNS record: "
                (DeleteRecords_loop p ctx zone)
                (is_delete_request p ctx (strings.TrimSuffix zone "."))
                (fun _ _ => eq_refl) (DeleteRecords_loop_cons p ctx zone)
                (deleteRecord_sends_zero_or_one p ctx zone) records w)
      as (attempted & HF & Hpre & _).
    apply Forall2_length in HF. apply prefix_length in Hpre.
    unfold DeleteRecords. lia.
  - destruct (SetRecords_trace p ctx zone records w)
      as (deleted & deletes & created & creates & -> & HFd & Hpred & HFc
          & Hprec & _).
    apply Forall2_length in HFd, HFc.
    apply prefix_length in Hpred, Hprec.
    pose proof (delete_targets_length records
                  (fst (fst (GetRecords p ctx zone w)))) as Hlen.
    rewrite !length_app. lia.
Qed.

End Properties.

(** * Properties of the Caddyfile reader *)

Section CaddyfileProperties.

Import caddyfile.

Context {cf : caddyfile.Env}.

Lemma from_option_refl (name old : string) : from_option name old old.
Proof. now left. Qed.

Lemma from_option_trans (name a b c : string) :
  from_option name a b -> from_option name b c -> from_option name a c.
Proof. intros Hab [-> | Hc]; [exact Hab | now right]. Qed.

Lemma from_http_timeout_trans (a b c : Duration) :
  from_http_timeout a b -> from_http_timeout b c -> from_http_timeout a c.
Proof. intros Hab [-> | Hc]; [exact Hab | now right]. Qed.

Lemma unmarshalled_stay (p : Provider) (d : Dispenser) :
  unmarshalled p (d, p, None).
Proof. split_and!; now left. Qed.

Lemma unmarshalled_trans (p p1 : Provider) (d1 : Dispenser)
    (r : Dispenser * Provider * option error) :
  unmarshalled p (d1, p1, None) -> unmarshalled p1 r -> unmarshalled p r.
Proof.
  intros (Hk & Hs & Ht & _) (Hk' & Hs' & Ht' & He). cbn in Hk, Hs, Ht.
  split_and!; [eapply from_option_trans | eapply from_option_trans
              | eapply from_http_timeout_trans | exact He]; eassumption.
Qed.

Lemma UnmarshalCaddyfile_option_unmarshalled (d : Dispenser) (p : Provider) :
  unmarshalled p (UnmarshalCaddyfile_option d p).
Proof.
  unfold UnmarshalCaddyfile_option.
  destruct (String.eqb_spec (Val d) "api_key") as [Hkey|Hkey].
  { destruct (NextArg d) as [[|] d1] eqn:Harg; cbn [negb];
      split_and!; cbn; try (now left).
    - right. exists d. now rewrite Harg.
    - intros e [= <-]. left. now exists d1. }
  destruct (String.eqb_spec (Val d) "api_secret") as [Hsecret|Hsecret].
  { destruct (NextArg d) as [[|] d1] eqn:Harg; cbn [negb];
      split_and!; cbn; try (now left).
    - right. exists d. now rewrite Harg.
    - intros e [= <-]. left. now exists d1. }
  destruct (String.eqb_spec (Val d) "http_timeout") as [Htimeout|Htimeout].
  { destruct (NextArg d) as [[|] d1] eqn:Harg; cbn [negb].
    - destruct (time_ParseDuration (Val d1)) as [dur|err] eqn:Hparse;
        split_and!; cbn; try (now left).
      + right. exists d. now rewrite Harg.
      + intros e [= <-]. right. left. exists d, err. now rewrite Harg.
    - split_and!; cbn; try (now left).
      intros e [= <-]. left. now exists d1. }
  split_and!; cbn; try (now left).
  intros e [= <-]. right. right. now exists d.
Qed.

Lemma UnmarshalCaddyfile_block_unmarshalled (fuel : nat) (nesting : Z)
    (d : Dispenser) (p : Provider) (r : Dispenser * Provider * option error) :
  UnmarshalCaddyfile_block fuel nesting d p = Some r -> unmarshalled p r.
Proof.
  revert d p. induction fuel as [|fuel IH]; intros d p; [discriminate|].
  cbn [UnmarshalCaddyfile_block].
  destruct (NextBlock nesting d) as [[|] d1].
  - pose proof (UnmarshalCaddyfile_option_unmarshalled d1 p) as Hopt.
    destruct (UnmarshalCaddyfile_option d1 p) as [[d2 p2] [e|]].
    + now intros [= <-].
    + intros Hrun. eapply unmarshalled_trans; [exact Hopt | eauto].
  - intros [= <-]. apply unmarshalled_stay.
Qed.

Lemma UnmarshalCaddyfile_unmarshalled (fuel : nat) (d : Dispenser)
    (p : Provider) (r : Dispenser * Provider * option error) :
  UnmarshalCaddyfile fuel d p = Some r -> unmarshalled p r.
Proof.
  revert d p. induction fuel as [|fuel IH]; intros d p; [discriminate|].
  cbn [UnmarshalCaddyfile].
  destruct (Next d) as [[|] d1]; [|intros [= <-]; apply unmarshalled_stay].
  destruct (NextArg d1) as [[|] d2].
  { intros [= <-]. split_and!; cbn; try (now left).
    intros e [= <-]. left. now exists d2. }
  destruct (UnmarshalCaddyfile_block fuel (Nesting d2) d2 p)
    as [[[d3 p3] [e|]]|] eqn:Hblock; [| |discriminate].
  - intros [= <-]. eapply UnmarshalCaddyfile_block_unmarshalled, Hblock.
  - intros Hrun. eapply unmarshalled_trans; [|eauto].
    eapply UnmarshalCaddyfile_block_unmarshalled, Hblock.
Qed.


(** X17.  The errors of [UnmarshalCaddyfile] are of three kinds and no
    other: the dispenser's [ArgErr], for a directive followed by an
    argument or an option without one; the failure of
    [time.ParseDuration] on the argument of [http_timeout], after
    [failed to parse http_timeout: ]; and the dispenser's [Errf] with
    [unknown configuration option: ] and the token, for a token that is
    none of the three option names. *)
Theorem UnmarshalCaddyfile_errors (fuel : nat) (d d' : Dispenser)
    (p p' : Provider) (e : error) :
  UnmarshalCaddyfile fuel d p = Some (d', p', Some e) ->
  unmarshal_error e.
Proof.
  intros Hrun.
  destruct (UnmarshalCaddyfile_unmarshalled _ _ _ _ Hrun) as (_ & _ & _ & He).
  now apply He.
Qed.

(** ** The loops end when the dispenser advances *)

Lemma UnmarshalCaddyfile_block_more_fuel (fuel fuel' : nat) (nesting : Z)
    (d : Dispenser) (p : Provider) (r : Dispenser * Provider * option error) :
  UnmarshalCaddyfile_block fuel nesting d p = Some r ->
  (fuel <= fuel')%nat ->
  UnmarshalCaddyfile_block fuel' nesting d p = Some r.
Proof.
  revert fuel' d p. induction fuel as [|fuel IH]; intros fuel' d p;
    [discriminate|].
  destruct fuel' as [|fuel']; [lia|]. intros Hrun Hle.
  cbn [UnmarshalCaddyfile_block] in Hrun |- *.
  destruct (NextBlock nesting d) as [[|] d1]; [|exact Hrun].
  destruct (UnmarshalCaddyfile_option d1 p) as [[d2 p2] [e|]]; [exact Hrun|].
  apply IH; [exact Hrun | lia].
Qed.

Lemma UnmarshalCaddyfile_more_fuel (fuel fuel' : nat) (d : Dispenser)
    (p : Provider) (r : Dispenser * Provider * option error) :
  UnmarshalCaddyfile fuel d p = Some r ->
  (fuel <= fuel')%nat ->
  UnmarshalCaddyfile fuel' d p = Some r.
Proof.
  revert fuel' d p. induction fuel as [|fuel IH]; intros fuel' d p;
    [discriminate|].
  destruct fuel' as [|fuel']; [lia|]. intros Hrun Hle.
  cbn [UnmarshalCaddyfile] in Hrun |- *.
  destruct (Next d) as [[|] d1]; [|exact Hrun].
  destruct (NextArg d1) as [[|] d2]; [exact Hrun|].
  destruct (UnmarshalCaddyfile_block fuel (Nesting d2) d2 p)
    as [[[d3 p3] oe]|] eqn:Hblock; [|discriminate].
  rewrite (UnmarshalCaddyfile_block_more_fuel fuel fuel' _ _ _ _ Hblock)
    by lia.
  destruct oe as [e|]; [exact Hrun|]. apply IH; [exact Hrun | lia].
Qed.

Section Progress.

Variable measure : Dispenser -> nat.

Hypothesis Next_advances : forall d,
  (measure (snd (Next d)) <= measure d)%nat
  /\ (fst (Next d) = true -> (measure (snd (Next d)) < measure d)%nat).
Hypothesis NextBlock_advances : forall nesting d,
  (measure (snd (NextBlock nesting d)) <= measure d)%nat
  /\ (fst (NextBlock nesting d) = true ->
      (measure (snd (NextBlock nesting d)) < measure d)%nat).
Hypothesis NextArg_no_way_back : forall d,
  (measure (snd (NextArg d)) <= measure d)%nat.

Lemma UnmarshalCaddyfile_option_measure (d : Dispenser) (p : Provider) :
  (measure (fst (fst (UnmarshalCaddyfile_option d p))) <= measure d)%nat.
Proof.
  unfold UnmarshalCaddyfile_option.
  pose proof (NextArg_no_way_back d) as Harg.
  destruct (String.eqb (Val d) "api_key");
    [destruct (NextArg d) as [[|] d1]; exact Harg|].
  destruct (String.eqb (Val d) "api_secret");
    [destruct (NextArg d) as [[|] d1]; exact Harg|].
  destruct (String.eqb (Val d) "http_timeout"); [|cbn; lia].
  destruct (NextArg d) as [[|] d1]; cbn [negb]; [|exact Harg].
  destruct (time_ParseDuration (Val d1)); exact Harg.
Qed.

Lemma UnmarshalCaddyfile_block_returns (fuel : nat) (nesting : Z)
    (d : Dispenser) (p : Provider) :
  (measure d < fuel)%nat ->
  exists r,
    UnmarshalCaddyfile_block fuel nesting d p = Some r
    /\ (measure (fst (fst r)) <= measure d)%nat.
Proof.
  revert d p. induction fuel as [|fuel IH]; intros d p Hlt; [lia|].
  cbn [UnmarshalCaddyfile_block].
  destruct (NextBlock_advances nesting d) as [Hle Hadv].
  destruct (NextBlock nesting d) as [[|] d1]; cbn [fst snd] in Hle, Hadv.
  - specialize (Hadv eq_refl).
    pose proof (UnmarshalCaddyfile_option_measure d1 p) as Hopt.
    destruct (UnmarshalCaddyfile_option d1 p) as [[d2 p2] [e|]];
      cbn [fst snd] in Hopt.
    + eexists. split; [reflexivity|]. cbn. lia.
    + destruct (IH d2 p2) as (r & Hr & Hm); [lia|].
      exists r. split; [exact Hr | lia].
  - eexists. split; [reflexivity|]. cbn. lia.
Qed.

Lemma UnmarshalCaddyfile_returns_within (fuel : nat) (d : Dispenser)
    (p : Provider) :
  (measure d < fuel)%nat ->
  exists r, UnmarshalCaddyfile fuel d p = Some r.
Proof.
  revert d p. induction fuel as [|fuel IH]; intros d p Hlt; [lia|].
  cbn [UnmarshalCaddyfile].
  destruct (Next_advances d) as [Hle Hadv].
  destruct (Next d) as [[|] d1]; cbn [fst snd] in Hle, Hadv;
    [|now eexists].
  specialize (Hadv eq_refl).
  pose proof (NextArg_no_way_back d1) as Harg.
  destruct (NextArg d1) as [[|] d2]; cbn [snd] in Harg; [now eexists|].
  destruct (UnmarshalCaddyfile_block_returns fuel (Nesting d2) d2 p)
    as ([[d3 p3] oe] & -> & Hm); [lia|]. cbn [fst snd] in Hm.
  destruct oe as [e|]; [now eexists|]. apply IH. lia.
Qed.

(** X18.  [UnmarshalCaddyfile] returns whenever the dispenser advances:
    if some measure of what is left to read never grows under [Next],
    [NextArg] and [NextBlock], and shrinks each time [Next] or [NextBlock]
    answers [true], then from every dispenser and provider the function
    has an outcome, reached within as many iterations as the measure of
    the dispenser, and the same however many more are allowed. *)
Theorem UnmarshalCaddyfile_returns (d : Dispenser) (p : Provider) :
  exists r,
    forall fuel, (measure d < fuel)%nat ->
                 UnmarshalCaddyfile fuel d p = Some r.
Proof.
  destruct (UnmarshalCaddyfile_returns_within (S (measure d)) d p)
    as [r Hr]; [lia|].
  exists r. intros fuel Hfuel.
  apply (UnmarshalCaddyfile_more_fuel (S (measure d))); [exact Hr | lia].
Qed.

End Progress.

End CaddyfileProperties.

Lemma Provision_contract_witness :
  HTTPTimeout (fst (fst (Run.Provision Run.provider (Run.world []))))
  = 30 * time.Second.
Proof.
  destruct (@Provision_contract Scripted.env Run.provider (Run.world [])) as (_ & _ & H).
  destruct H as [H _]; [discriminate | discriminate | reflexivity |].
  exact H.
Defined.

Lemma deleteRecord_reads_type_and_name_witness :
  Run.deleteRecord Run.provider tt "example.com." Scripted.old_challenge
    (Run.world [Run.no_content])
  = Run.deleteRecord Run.provider tt "example.com." Run.new_challenge
      (Run.world [Run.no_content]).
Proof.
  apply (@deleteRecord_reads_type_and_name Scripted.env);
    reflexivity.
Defined.

Lemma zone_trailing_dot_witness :
  Run.SetRecords Run.provider tt "example.com." [Run.new_challenge]
    (Run.world [Run.listing; Run.no_content; Run.ok])
  = Run.SetRecords Run.provider tt "example.com" [Run.new_challenge]
      (Run.world [Run.listing; Run.no_content; Run.ok]).
Proof.
  destruct (@zone_trailing_dot Scripted.env Run.provider tt "example.com"
              eq_refl)
    as (_ & _ & _ & _ & _ & _ & H).
  exact (H [Run.new_challenge]
           (Run.world [Run.listing; Run.no_content; Run.ok])).
Defined.

Lemma status_code_boundary_witness :
  fst (Run.createRecord Run.provider tt "example.com." Run.www
         (Run.world [Run.created]))
  = Some "failed to create DNS record: 201 created".
Proof.
  destruct (@status_code_boundary Scripted.env Run.provider tt
              "example.com.")
    as (_ & Hcreate & _ & _).
  destruct (Hcreate Run.www (Run.world [Run.created])
              (@outgoing Scripted.env Run.provider
                 (mkRequest tt "PATCH"
                    "https://api.godaddy.com/v1/domains/example.com/records"
                    ∅ (Some "[{A www 192.0.2.1}]")))
              [] (mkResponse 201 "created") eq_refl eq_refl)
    as [_ H].
  apply H. discriminate.
Defined.

Lemma batches_stop_at_first_failure_witness :
  fst (Run.AppendRecords Run.provider tt "example.com."
         [Run.www; Run.new_challenge; Run.other_challenge]
         (Run.world [Run.ok; Run.server_error]))
  = ([Run.www],
     Some "failed to create DNS record: failed to create DNS record: 500 boom").
Proof.
  destruct (@batches_stop_at_first_failure Scripted.env Run.provider tt
              "example.com.")
    as (_ & _ & H).
  pose (w := Run.world [Run.ok; Run.server_error]).
  pose (w1 := snd (Run.createRecord Run.provider tt "example.com." Run.www w)).
  pose (w2 := snd (Run.createRecord Run.provider tt "example.com."
                     Run.new_challenge w1)).
  exact (f_equal fst
           (H Run.www Run.new_challenge Run.other_challenge w w1 w2
              "failed to create DNS record: 500 boom" eq_refl eq_refl)).
Defined.

Lemma SetRecords_failures_witness :
  fst (Run.SetRecords Run.provider tt "example.com."
         [Run.new_challenge; Run.other_challenge]
         (Run.world [Run.listing; Run.no_content; Run.no_content;
                     Run.ok; Run.server_error]))
  = ([Run.new_challenge],
     Some "failed to create DNS record: failed to create DNS record: 500 boom").
Proof.
  destruct (@SetRecords_failures Scripted.env Run.provider tt "example.com."
              [Run.new_challenge; Run.other_challenge]
              (Run.world [Run.listing; Run.no_content; Run.no_content;
                          Run.ok; Run.server_error]))
    as (_ & _ & H & _).
  pose (w := Run.world [Run.listing; Run.no_content; Run.no_content;
                        Run.ok; Run.server_error]).
  pose (w1 := snd (Run.GetRecords Run.provider tt "example.com." w)).
  pose (w2 := snd (Run.deleteRecord Run.provider tt "example.com."
                     Scripted.old_challenge
                     (snd (Run.deleteRecord Run.provider tt "example.com."
                             Scripted.old_challenge w1)))).
  exact (f_equal fst (H [Scripted.old_challenge] w1 w2 eq_refl eq_refl)).
Defined.

(** ** Runs for the further properties *)

Lemma AppendRecords_requests_witness :
  Forall2 (@is_create_request Scripted.env Run.provider tt "example.com")
    [Run.www; Run.new_challenge]
    (requests_of
       (Run.AppendRecords Run.provider tt "example.com."
          [Run.www; Run.new_challenge])
       (Run.world [Run.ok; Run.ok])).
Proof.
  destruct (@AppendRecords_requests Scripted.env Run.provider tt
              "example.com." [Run.www; Run.new_challenge]
              (Run.world [Run.ok; Run.ok]))
    as (attempted & HF & _ & _ & _ & Hall).
  rewrite (Hall eq_refl) in HF. exact HF.
Defined.

Lemma DeleteRecords_requests_witness :
  Forall2 (@is_delete_request Scripted.env Run.provider tt "example.com")
    [Run.www; Run.new_challenge]
    (requests_of
       (Scenario.DeleteRecords Run.provider tt "example.com."
          [Run.www; Run.new_challenge])
       (Run.world [Run.ok; Run.no_content])).
Proof.
  destruct (@DeleteRecords_requests Scripted.env Run.provider tt
              "example.com." [Run.www; Run.new_challenge]
              (Run.world [Run.ok; Run.no_content]))
    as (attempted & HF & _ & _ & _ & Hall).
  rewrite (Hall eq_refl) in HF. exact HF.
Defined.

Lemma SetRecords_requests_witness :
  exists deletes creates,
    requests_of
      (Run.SetRecords Run.provider tt "example.com." [Run.new_challenge])
      (Run.world [Run.listing; Run.no_content; Run.ok])
    = requests_of (Run.GetRecords Run.provider tt "example.com.")
        (Run.world [Run.listing; Run.no_content; Run.ok])
      ++ deletes ++ creates
    /\ Forall2 (@is_delete_request Scripted.env Run.provider tt "example.com")
         [Scripted.old_challenge] deletes
    /\ Forall2 (@is_create_request Scripted.env Run.provider tt "example.com")
         [Run.new_challenge] creates.
Proof.
  destruct (@SetRecords_requests Scripted.env Run.provider tt "example.com."
              [Run.new_challenge]
              (Run.world [Run.listing; Run.no_content; Run.ok]))
    as (deleted & deletes & created & creates & Heq & HFd & _ & HFc & _ & _
        & Hall).
  destruct (Hall eq_refl) as [Hd Hc].
  exists deletes, creates. rewrite Hd in HFd. rewrite Hc in HFc.
  split; [exact Heq|]. split; [exact HFd | exact HFc].
Defined.

Lemma transport_failure_returned_witness :
  fst (Run.GetRecords Run.provider tt "example.com."
         (Run.world [Scenario.timed_out]))
  = ([], Some "context deadline exceeded").
Proof.
  destruct (@transport_failure_returned Scripted.env Run.provider tt
              "example.com.") as (Hget & _ & _).
  exact (f_equal fst
           (Hget (Run.world [Scenario.timed_out])
              (@list_request Scripted.env Run.provider tt "example.com")
              [] "context deadline exceeded" eq_refl eq_refl)).
Defined.

Lemma success_comes_from_upstream_witness :
  exists resp,
    Scripted.roundTrip [Run.no_content]
      (@delete_request Scripted.env Run.provider tt "example.com"
         Scripted.old_challenge)
    = ([], Ok resp)
    /\ (StatusCode resp = 200 \/ StatusCode resp = 204).
Proof.
  destruct (@success_comes_from_upstream Scripted.env Run.provider tt
              "example.com.") as (_ & Hdelete & _).
  destruct (Hdelete Scripted.old_challenge (Run.world [Run.no_content])
              (snd (Run.deleteRecord Run.provider tt "example.com."
                      Scripted.old_challenge (Run.world [Run.no_content])))
              eq_refl) as (resp & Hrt & Hstatus & _).
  exists resp. split; [exact Hrt | exact Hstatus].
Defined.

Lemma batch_error_iff_incomplete_witness :
  snd (fst (Run.AppendRecords Run.provider tt "example.com."
              [Run.www; Run.new_challenge] (Run.world [Run.ok; Run.ok])))
  = None.
Proof.
  destruct (@batch_error_iff_incomplete Scripted.env Run.provider tt
              "example.com." [Run.www; Run.new_challenge]
              (Run.world [Run.ok; Run.ok])) as [[_ Hiff] _].
  apply Hiff. reflexivity.
Defined.

Lemma SetRecords_result_witness :
  snd (fst (Run.SetRecords Run.provider tt "example.com."
              [Run.new_challenge]
              (Run.world [Run.listing; Run.no_content; Run.ok])))
  = None.
Proof.
  destruct (@SetRecords_result Scripted.env Run.provider tt "example.com."
              [Run.new_challenge]
              (Run.world [Run.listing; Run.no_content; Run.ok]))
    as (_ & _ & Hall).
  apply Hall; [discriminate | reflexivity].
Defined.

Lemma SetRecords_nothing_to_replace_witness :
  Run.SetRecords Run.provider tt "example.com." [Run.www]
    (Run.world [Run.listing; Run.ok])
  = Run.AppendRecords Run.provider tt "example.com." [Run.www]
      (snd (Run.GetRecords Run.provider tt "example.com."
              (Run.world [Run.listing; Run.ok]))).
Proof.
  refine (proj1 (@SetRecords_nothing_to_replace Scripted.env Run.provider tt
                   "example.com." [Run.www] [Scripted.old_challenge]
                   (Run.world [Run.listing; Run.ok]) _ eq_refl _)).
  intros n ex Hn Hex.
  apply list_elem_of_singleton in Hn. apply list_elem_of_singleton in Hex.
  rewrite Hn, Hex. reflexivity.
Defined.


Lemma Provision_leaves_witness :
  APIKey (fst (fst (Run.Provision Run.provider (Run.world [])))) <> ""
  /\ HTTPTimeout (fst (fst (Run.Provision (mkProvider "key" "secret" (-1))
                               (Run.world []))))
     = -1.
Proof.
  split.
  - destruct (@Provision_leaves Scripted.env Run.provider (Run.world []))
      as (_ & _ & _ & Hok & _).
    exact (proj1 (Hok eq_refl)).
  - destruct (@Provision_leaves Scripted.env (mkProvider "key" "secret" (-1))
                (Run.world [])) as (_ & _ & Hkeep & _).
    apply Hkeep. discriminate.
Defined.

Lemma name_sent_upstream_witness :
  recordName "example.com" Scenario.relative = "_acme-challenge"
  /\ recordName "example.com" Run.www = "www".
Proof.
  split.
  - destruct (name_sent_upstream "example.com" Scenario.relative)
      as (_ & _ & Hrel).
    apply Hrel; [reflexivity | discriminate].
  - destruct (name_sent_upstream "example.com" Run.www) as (Hsub & _).
    apply (Hsub "www"); [reflexivity | discriminate].
Defined.


Lemma UnmarshalCaddyfile_errors_witness :
  @unmarshal_error ScriptedDispenser.env
    "unknown configuration option: api_kee".
Proof.
  exact (@UnmarshalCaddyfile_errors ScriptedDispenser.env 10
           (ScriptedDispenser.dispenser Scenario.misspelt)
           ("api_kee", [(true, "K")])
           (mkProvider "" "" 0) (mkProvider "" "" 0)
           "unknown configuration option: api_kee" eq_refl).
Defined.

Lemma scripted_step_advances (d : ScriptedDispenser.Dispenser) :
  (Scenario.left_to_read (snd (ScriptedDispenser.step d))
   <= Scenario.left_to_read d)%nat
  /\ (fst (ScriptedDispenser.step d) = true ->
      (Scenario.left_to_read (snd (ScriptedDispenser.step d))
       < Scenario.left_to_read d)%nat).
Proof.
  destruct d as [token [|[answer token'] script]]; cbn.
  - split; [lia | discriminate].
  - split; [lia | intros _; lia].
Defined.

Lemma UnmarshalCaddyfile_returns_witness :
  exists r,
    forall fuel, (9 < fuel)%nat ->
                 Scenario.UnmarshalCaddyfile fuel
                   (ScriptedDispenser.dispenser Scenario.block)
                   (mkProvider "" "" 0)
                 = Some r.
Proof.
  exact (@UnmarshalCaddyfile_returns ScriptedDispenser.env
           Scenario.left_to_read scripted_step_advances
           (fun _ => scripted_step_advances)
           (fun d => proj1 (scripted_step_advances d))
           (ScriptedDispenser.dispenser Scenario.block)
           (mkProvider "" "" 0)).
Defined.

Lemma GetRecords_only_reads_witness :
  fst (fst (Run.GetRecords Run.provider tt "example.com."
              (Run.world [Scenario.not_found])))
  = [].
Proof.
  destruct (@GetRecords_only_reads Scripted.env Run.provider tt
              "example.com." (Run.world [Scenario.not_found]))
    as (_ & _ & Herr).
  apply Herr. discriminate.
Defined.

Lemma provisioned_requests_have_timeout_witness :
  @sends_only Scripted.env
    (fun s => sent_Timeout s = 30 * time.Second
              /\ sent_Timeout s <> 0
              /\ (0 = 0 -> sent_Timeout s = 30 * time.Second))
    _ (Run.GetRecords (mkProvider "key" "secret" (30 * time.Second)) tt
         "example.com.").
Proof.
  exact (proj1 (@provisioned_requests_have_timeout Scripted.env
                  Run.provider (mkProvider "key" "secret" (30 * time.Second))
                  (Run.world []) (Run.world []) tt "example.com." []
                  eq_refl)).
Defined.
